(** * astropy-healpix: the high-level HEALPix interface

    A shallow embedding of [healpix/high_level.py]: the classes [HEALPix]
    and [CelestialHEALPix], which bind a resolution [nside] and a pixel
    [order] into an object and forward every call to the functions of
    [healpix.core].

    - Python objects live in a store: the object's attributes and the
      numpy arrays a caller passes by reference.  Methods are computations
      of a state-and-exception monad over that store.
    - The functions imported from [.core], and the parts of astropy the
      celestial class uses, are interfaces (type classes): the methods are
      written against them, as the Python module is written against its
      imports.
    - [core.py] is not among the sources: the modules [pixel] and
      [spec_core] give the core functions that the properties are about,
      modelled from the specification. *)

From Stdlib Require Import ZArith List Lia Bool.
From stdpp Require Import base option gmap.

Local Open Scope Z_scope.

(** ** Values *)

(** The pixel ordering, the docstring's [{ 'nested' | 'ring' }]. *)
Inductive Order := ring | nested.

(** What the code raises.  Every exception of [high_level.py] is a
    [ValueError]; the constructors keep apart the three places that raise
    one, under the names the specification gives them, and the errors the
    core reports. *)
Inductive error :=
| NsideNotSet            (* ValueError('nside has not been set') *)
| ValueLengthMismatch    (* ValueError('values should be an array of length ...') *)
| InvalidArgumentShape   (* ValueError('The longitude, latitude and radius should be scalar ...') *)
| InvalidResolution
| InvalidIndex
| InvalidCoordinate
| InvalidRadius
| TypeError.             (* len() of something that is not an array *)

Inductive result (A : Type) :=
| Ok (a : A)
| Raise (e : error).
Arguments Ok {A} a.
Arguments Raise {A} e.

Definition result_bind {A B} (r : result A) (k : A -> result B) : result B :=
  match r with
  | Ok a => k a
  | Raise e => Raise e
  end.

(** A Python value passed where a flag is expected: [approximate] is
    documented as a bool, and [cone_search_skycoord] passes an int. *)
Inductive pyvalue :=
| PyBool (b : bool)
| PyInt (n : Z).

Definition truthy (v : pyvalue) : bool :=
  match v with
  | PyBool b => b
  | PyInt n => negb (n =? 0)
  end.

(** Floating-point numbers are not interpreted: the model never computes
    with them, it only passes them on. *)
Class Numerics := { float : Type }.

(** An astropy [Quantity]: a scalar or an array ([isscalar]). *)
Inductive Quantity `{Numerics} :=
| Scalar (x : float)
| Array (xs : list float).

Definition isscalar `{Numerics} (q : Quantity) : bool :=
  match q with
  | Scalar _ => true
  | Array _ => false
  end.

(** ** The imports *)

(** Modelled from the spec: the functions of the missing [core.py] that
    [from .core import ...] (lines 6-9) brings in, with the signatures the
    methods call them with.  They are pure functions of their arguments
    (section 5): an array argument is read, never written. *)
Module core.
Class Core `{Numerics} := {
  nside_to_pixel_area : Z -> result float;
  nside_to_pixel_resolution : Z -> result float;
  nside_to_npix : Z -> result Z;
  healpix_to_lonlat :
    list Z -> Z -> option (list float) -> option (list float) -> Order ->
    result (Quantity * Quantity);
  lonlat_to_healpix :
    Quantity -> Quantity -> Z -> bool -> Order ->
    result (list Z * option (list float * list float));
  interpolate_bilinear_lonlat :
    Quantity -> Quantity -> list float -> Order -> result (list float);
  ring_to_nested : list Z -> Z -> result (list Z);
  nested_to_ring : list Z -> Z -> result (list Z);
  healpix_cone_search :
    Quantity -> Quantity -> Quantity -> Z -> Order -> pyvalue -> result (list Z)
}.
End core.

(** [astropy.coordinates] as [CelestialHEALPix] uses it. *)
Class Astropy `{Numerics} := {
  Frame : Type;
  SkyCoord : Type;
  ICRS : Frame;
  (* skycoord.transform_to(frame) *)
  transform_to : SkyCoord -> Frame -> SkyCoord;
  (* skycoord.represent_as(UnitSphericalRepresentation), then .lon and .lat *)
  represent_as_unit_spherical : SkyCoord -> Quantity * Quantity;
  (* SkyCoord(frame.realize_frame(UnitSphericalRepresentation(lon, lat, copy=False))) *)
  realize_frame : Frame -> Quantity -> Quantity -> SkyCoord
}.

(** ** Objects and the store *)

Record HEALPix := { nside : Z; order : Order }.

Record CelestialHEALPix `{Astropy} := { base : HEALPix; frame : Frame }.

(** A class whose instances carry the attributes of [HEALPix]. *)
Class HEALPixLike (S : Type) := healpix_of : S -> HEALPix.
#[global] Hint Mode HEALPixLike ! : typeclass_instances.

#[export] Instance HEALPix_like : HEALPixLike HEALPix := fun h => h.
#[export] Instance Celestial_like `{Astropy} : HEALPixLike CelestialHEALPix := base.

(** The store a call runs in: the object [self] and the arrays that the
    caller holds references to. *)
Record world `{Numerics} (S : Type) := World {
  w_self : S;
  w_arrays : gmap positive (list float)
}.
Arguments World {_ S}.
Arguments w_self {_ S}.
Arguments w_arrays {_ S}.

Section Monad.
Context `{Numerics} {S : Type}.

(** Computations: a result, or an exception, and the store afterwards. *)
Definition M (A : Type) := world S -> result A * world S.

Definition ret {A} (a : A) : M A := fun w => (Ok a, w).

Definition raise {A} (e : error) : M A := fun w => (Raise e, w).

Definition bind {A B} (c : M A) (k : A -> M B) : M B :=
  fun w =>
    match c w with
    | (Ok a, w') => k a w'
    | (Raise e, w') => (Raise e, w')
    end.

(** Reading an attribute, [self.x]. *)
Definition getattr {A} (f : S -> A) : M A := fun w => (Ok (f (w_self w)), w).

(** A call of a core function. *)
Definition call {A} (r : result A) : M A := fun w => (r, w).

(** The contents of the array a reference points to. *)
Definition deref (l : positive) : M (list float) :=
  fun w =>
    match w_arrays w !! l with
    | Some xs => (Ok xs, w)
    | None => (Raise TypeError, w)
    end.

(** [len(values)]. *)
Definition len (l : positive) : M Z :=
  bind (deref l) (fun xs => ret (Z.of_nat (length xs))).

End Monad.
Arguments M {_} S A.

Declare Scope py_scope.
Delimit Scope py_scope with py.
Notation "x <~ c ;; k" := (bind c (fun x => k))
  (at level 100, c at next level, right associativity) : py_scope.

(** ** class HEALPix *)

Module HEALPix.
Section methods.
Context `{Numerics} `{!core.Core} {S : Type} `{!HEALPixLike S}.
Local Open Scope py_scope.

(** Lines 26-30, [HEALPix(nside=None, order='ring')]: an argument left
    out is [None] here, and takes the default of the signature.  Only a
    missing [nside] is rejected. *)
Definition __init__ (nside : option Z) (order : option Order) : result HEALPix :=
  match nside with
  | None => Raise NsideNotSet
  | Some n => Ok {| nside := n; order := default ring order |}
  end.

(** [self.nside] and [self.order]. *)
Definition self_nside : M S Z := getattr (fun s => nside (healpix_of s)).

Definition self_order : M S Order := getattr (fun s => order (healpix_of s)).

(** Lines 32-51, the three properties. *)
Definition pixel_area : M S float :=
  n <~ self_nside ;; call (core.nside_to_pixel_area n).

Definition pixel_resolution : M S float :=
  n <~ self_nside ;; call (core.nside_to_pixel_resolution n).

Definition npix : M S Z :=
  n <~ self_nside ;; call (core.nside_to_npix n).

(** Lines 53-73.  [dx] and [dy] default to [None], which the core reads as
    the centre of the pixel. *)
Definition healpix_to_lonlat (healpix_index : list Z) (dx dy : option (list float))
  : M S (Quantity * Quantity) :=
  n <~ self_nside ;;
  o <~ self_order ;;
  call (core.healpix_to_lonlat healpix_index n dx dy o).

(** Lines 75-99. *)
Definition lonlat_to_healpix (lon lat : Quantity) (return_offsets : option bool)
  : M S (list Z * option (list float * list float)) :=
  n <~ self_nside ;;
  o <~ self_order ;;
  call (core.lonlat_to_healpix lon lat n (default false return_offsets) o).

(** Lines 101-131. *)
Definition nested_to_ring (nested_index : list Z) : M S (list Z) :=
  n <~ self_nside ;; call (core.nested_to_ring nested_index n).

Definition ring_to_nested (ring_index : list Z) : M S (list Z) :=
  n <~ self_nside ;; call (core.ring_to_nested ring_index n).

(** Lines 133-154.  [values] is a reference to the caller's array.  The
    two reads in the failing branch are the arguments of the message's
    [format].  The core is not passed [nside]. *)
Definition interpolate_bilinear_lonlat (lon lat : Quantity) (values : positive)
  : M S (list float) :=
  l <~ len values ;;
  p <~ npix ;;
  if negb (l =? p) then
    _ <~ npix ;; _ <~ len values ;; raise ValueLengthMismatch
  else
    vs <~ deref values ;;
    o <~ self_order ;;
    call (core.interpolate_bilinear_lonlat lon lat vs o).

(** Lines 156-183. *)
Definition cone_search_lonlat (lon lat radius : Quantity) (approximate : option pyvalue)
  : M S (list Z) :=
  if negb (isscalar lon) || negb (isscalar lat) || negb (isscalar radius) then
    raise InvalidArgumentShape
  else
    n <~ self_nside ;;
    o <~ self_order ;;
    call (core.healpix_cone_search lon lat radius n o
            (default (PyBool false) approximate)).

End methods.
End HEALPix.

(** ** class CelestialHEALPix(HEALPix) *)

Module CelestialHEALPix.
Section methods.
Context `{Numerics} `{!core.Core} `{!Astropy}.
Local Open Scope py_scope.

(** Lines 200-203: the constructor of the base class, then the frame,
    [ICRS()] when none is given. *)
Definition __init__ (nside : option Z) (order : option Order) (frame : option Frame)
  : result CelestialHEALPix :=
  result_bind (HEALPix.__init__ nside (Some (default ring order)))
    (fun b => Ok {| base := b; frame := default ICRS frame |}).

Definition self_frame : M CelestialHEALPix Frame := getattr frame.

(** Lines 205-225. *)
Definition healpix_to_skycoord (healpix_index : list Z) (dx dy : option (list float))
  : M CelestialHEALPix SkyCoord :=
  ll <~ HEALPix.healpix_to_lonlat healpix_index dx dy ;;
  f <~ self_frame ;;
  ret (realize_frame f (fst ll) (snd ll)).

(** Lines 227-252. *)
Definition skycoord_to_healpix (skycoord : SkyCoord) (return_offsets : option bool)
  : M CelestialHEALPix (list Z * option (list float * list float)) :=
  f <~ self_frame ;;
  let ll := represent_as_unit_spherical (transform_to skycoord f) in
  HEALPix.lonlat_to_healpix (fst ll) (snd ll) (Some (default false return_offsets)).

(** Lines 254-275. *)
Definition interpolate_bilinear_skycoord (skycoord : SkyCoord) (values : positive)
  : M CelestialHEALPix (list float) :=
  f <~ self_frame ;;
  let ll := represent_as_unit_spherical (transform_to skycoord f) in
  HEALPix.interpolate_bilinear_lonlat (fst ll) (snd ll) values.

(** Lines 277-303.  Line 303 passes [self.nside] in the fourth position,
    which is [approximate] of [cone_search_lonlat]; the method's own
    [approximate] is not used. *)
Definition cone_search_skycoord (skycoord : SkyCoord) (radius : Quantity)
  (approximate : option pyvalue) : M CelestialHEALPix (list Z) :=
  f <~ self_frame ;;
  let ll := represent_as_unit_spherical (transform_to skycoord f) in
  n <~ HEALPix.self_nside ;;
  HEALPix.cone_search_lonlat (fst ll) (snd ll) radius (Some (PyInt n)).

End methods.
End CelestialHEALPix.

(** ** The pixel numbering of [healpix.core]

    [core.py] and the compiled routines under it are not among the
    sources.  What follows gives, from the specification, the functions of
    the core that the properties below are about. *)

Module pixel.

(** Modelled from the spec: the canonical representation of a pixel that
    the missing ordering converter goes through (section 4.3), a base tile
    (one of 12) and a local 2-D coordinate inside it. *)
Record xyf := { face : Z; ix : Z; iy : Z }.

(** Modelled from the spec: the range of the canonical representation at
    resolution [n] (section 4.3): one of 12 tiles, and [n] pixels along
    each side of a tile (glossary, nside). *)
Definition xyf_valid (n : Z) (t : xyf) : bool :=
  (0 <=? face t) && (face t <? 12) &&
  (0 <=? ix t) && (ix t <? n) && (0 <=? iy t) && (iy t <? n).

(** Modelled from the spec: the missing validation of the resolution
    (section 3, section 7): [nside] is positive and, for the bit-interleaved
    scheme, a power of two. *)
Definition is_power_of_two (n : Z) : bool := (0 <? n) && (n =? 2 ^ Z.log2 n).

(** Modelled from the spec: the missing interleaving of two equal-width bit
    fields (section 4.3, section 9), by explicit bit manipulation; [x]
    takes the even bits and [y] the odd ones, [k] bits each. *)
Fixpoint spread_bits (k : nat) (x y : Z) : Z :=
  match k with
  | O => 0
  | S k' =>
      Z.lor (Z.lor (Z.land x 1) (Z.shiftl (Z.land y 1) 1))
            (Z.shiftl (spread_bits k' (Z.shiftr x 1) (Z.shiftr y 1)) 2)
  end.

(** Modelled from the spec: the missing de-interleaving (section 4.3,
    section 9), the even and the odd bits of [p] as two [k]-bit fields. *)
Fixpoint compress_bits (k : nat) (p : Z) : Z * Z :=
  match k with
  | O => (0, 0)
  | S k' =>
      let '(x, y) := compress_bits k' (Z.shiftr p 2) in
      (Z.lor (Z.land p 1) (Z.shiftl x 1),
       Z.lor (Z.land (Z.shiftr p 1) 1) (Z.shiftl y 1))
  end.

(** Modelled from the spec: the missing nested numbering (section 4.3):
    each of the 12 base tiles is divided recursively into four children,
    so a tile holds [n * n] consecutive indices and the two interleaved
    bit fields locate the pixel inside its tile. *)
Definition xyf_to_nested (n : Z) (t : xyf) : Z :=
  face t * (n * n) + spread_bits (Z.to_nat (Z.log2 n)) (ix t) (iy t).

(** Modelled from the spec: the missing decoding of a nested index
    (section 4.3): the tile is the quotient by [n * n], the two bit fields
    are de-interleaved from the remainder. *)
Definition nested_to_xyf (n : Z) (p : Z) : xyf :=
  let '(x, y) := compress_bits (Z.to_nat (Z.log2 n)) (p mod (n * n)) in
  {| face := p / (n * n); ix := x; iy := y |}.

(** Modelled from the spec: the layout of the 12 base tiles that the
    missing ring numbering rests on, as the standard HEALPix tessellation
    has it (section 4.2): four tiles around the north pole, four on the
    equator, four around the south pole.  [jrll f * n] is the ring just
    a tile's northernmost corner would lie on: pixel [(x, y)] of the tile
    lies on ring [jrll f * n - x - y - 1]. *)
Definition jrll (f : Z) : Z := f / 4 + 2.

(** Modelled from the spec: the longitude of the centre of tile [f] in the
    same layout, in units of pi/4: 1, 3, 5, 7 for the polar tiles and
    0, 2, 4, 6 for the equatorial ones. *)
Definition jpll (f : Z) : Z :=
  if f / 4 =? 1 then 2 * (f mod 4) else 2 * (f mod 4) + 1.

(** Modelled from the spec: the missing ring numbering (section 4.3):
    iso-latitude rings are swept from the north pole to the south pole and
    west to east inside a ring.  Ring [jr] (1 to [4n-1]) has [4 jr] pixels
    in the north cap, [4n] in the equatorial belt and [4 (4n - jr)] in the
    south cap, so the lengths grow and then shrink.  [ring_quarter] is a
    quarter of the length of ring [jr]. *)
Definition ring_quarter (n jr : Z) : Z :=
  if jr <? n then jr else if 3 * n <? jr then 4 * n - jr else n.

(** Modelled from the spec: in the missing ring numbering, the index of
    the first pixel of ring [jr]: the number of pixels of the rings north
    of it. *)
Definition ring_first (n jr : Z) : Z :=
  if jr <? n then 2 * jr * (jr - 1)
  else if 3 * n <? jr then 12 * n * n - 2 * (4 * n - jr + 1) * (4 * n - jr)
  else 2 * n * (n - 1) + (jr - n) * (4 * n).

(** Modelled from the spec: in the missing ring numbering, whether the
    pixels of ring [jr] are offset by half a pixel in longitude, as every
    other ring of the belt is in the standard tessellation. *)
Definition ring_shift (n jr : Z) : Z :=
  if jr <? n then 0 else if 3 * n <? jr then 0 else (jr - n) mod 2.

(** Modelled from the spec: the missing ring index of a pixel given by its
    ring and its position (from 1, west to east) in the ring. *)
Definition ring_index (n : Z) (rp : Z * Z) : Z := ring_first n (fst rp) + snd rp - 1.

(** Modelled from the spec: the missing passage from a ring index to the
    ring and the position in it: the ring is found by a square root in the
    caps (the rings before ring [i] of a cap hold [2 i (i - 1)] pixels) and
    by a division in the belt. *)
Definition ring_locate (n pix : Z) : Z * Z :=
  let ncap := 2 * n * (n - 1) in
  let npix := 12 * n * n in
  if pix <? ncap then
    let i := (1 + Z.sqrt (1 + 2 * pix)) / 2 in
    (i, pix + 1 - 2 * i * (i - 1))
  else if pix <? npix - ncap then
    let ip := pix - ncap in
    (ip / (4 * n) + n, ip mod (4 * n) + 1)
  else
    let ip := npix - pix in
    let i := (1 + Z.sqrt (2 * ip - 1)) / 2 in
    (4 * n - i, 4 * i + 1 - (ip - 2 * i * (i - 1))).

(** Modelled from the spec: the missing passage from the canonical
    (tile, x, y) to (ring, position in ring).  A pixel of tile [f] lies on
    ring [jrll f * n - x - y - 1]; its longitude counts from the tile's
    centre, and tile 4 straddles longitude zero, where positions wrap. *)
Definition xyf_to_ringpos (n : Z) (t : xyf) : Z * Z :=
  let jr := jrll (face t) * n - ix t - iy t - 1 in
  let jp := (jpll (face t) * ring_quarter n jr + ix t - iy t + 1 + ring_shift n jr) / 2 in
  (jr, if jp <? 1 then jp + 4 * n else jp).

(** Modelled from the spec: the tile of the pixel at position [jp] of ring
    [jr]: in a cap the ring is cut in four, one quarter per polar tile; in
    the belt the tile follows from the two diagonals that bound it. *)
Definition ringpos_face (n jr jp : Z) : Z :=
  if jr <? n then (jp - 1) / jr
  else if 3 * n <? jr then 8 + (jp - 1) / (4 * n - jr)
  else
    let ire := jr - n + 1 in
    let irm := 2 * n + 2 - ire in
    let ifm := (jp - ire / 2 + n - 1) / n in
    let ifp := (jp - irm / 2 + n - 1) / n in
    if ifp =? ifm then Z.lor ifp 4 else if ifp <? ifm then ifp else ifm + 8.

(** Modelled from the spec: the missing passage from (ring, position in
    ring) back to the canonical (tile, x, y). *)
Definition ringpos_to_xyf (n : Z) (rp : Z * Z) : xyf :=
  let '(jr, jp) := rp in
  let f := ringpos_face n jr jp in
  let irt := jr - jrll f * n + 1 in
  let ipt := 2 * jp - jpll f * ring_quarter n jr - ring_shift n jr - 1 in
  let ipt := if 2 * n <=? ipt then ipt - 8 * n else ipt in
  {| face := f; ix := (ipt - irt) / 2; iy := (- ipt - irt) / 2 |}.

(** Modelled from the spec: the missing ring index of a pixel given in
    the canonical representation (section 4.3). *)
Definition xyf_to_ring (n : Z) (t : xyf) : Z := ring_index n (xyf_to_ringpos n t).

(** Modelled from the spec: the missing canonical representation of a
    pixel given by its ring index (section 4.3). *)
Definition ring_to_xyf (n : Z) (pix : Z) : xyf := ringpos_to_xyf n (ring_locate n pix).

(** Modelled from the spec: the missing conversion of one nested index
    (section 4.3): the canonical (tile, x, y) is computed from the nested
    numbering and the ring index is derived from it. *)
Definition nested_to_ring (n p : Z) : Z := xyf_to_ring n (nested_to_xyf n p).

(** Modelled from the spec: the missing conversion of one ring index
    (section 4.3), through the same canonical representation. *)
Definition ring_to_nested (n p : Z) : Z := xyf_to_nested n (ring_to_xyf n p).

(** A ring and a position inside it. *)
Definition ringpos_valid (n : Z) (rp : Z * Z) : Prop :=
  1 <= fst rp <= 4 * n - 1 /\ 1 <= snd rp <= 4 * ring_quarter n (fst rp).

(** The three bands of rings, with what the ring functions are in each. *)
Inductive zone (n jr : Z) : Prop :=
| north_cap : jr < n -> ring_quarter n jr = jr -> ring_shift n jr = 0 ->
    (forall jp, ringpos_face n jr jp = (jp - 1) / jr) -> zone n jr
| belt : n <= jr <= 3 * n -> ring_quarter n jr = n -> ring_shift n jr = (jr - n) mod 2 ->
    (forall jp, ringpos_face n jr jp =
       let ifm := (jp - (jr - n + 1) / 2 + n - 1) / n in
       let ifp := (jp - (2 * n + 2 - (jr - n + 1)) / 2 + n - 1) / n in
       if ifp =? ifm then Z.lor ifp 4 else if ifp <? ifm then ifp else ifm + 8) -> zone n jr
| south_cap : 3 * n < jr -> ring_quarter n jr = 4 * n - jr -> ring_shift n jr = 0 ->
    (forall jp, ringpos_face n jr jp = 8 + (jp - 1) / (4 * n - jr)) -> zone n jr.

End pixel.

(** Modelled from the spec: the floating-point work of the missing core,
    left uninterpreted: the solid angle and the angular size of a pixel
    (section 4.1), the projection between indices and coordinates (section
    4.2), the blend of the neighbouring values (section 4.4), and the
    range test and the two ingredients of the disc search (section 4.5). *)
Class Kernel `{Numerics} := {
  pixel_area_of : Z -> float;
  pixel_resolution_of : Z -> float;
  index_to_lonlat :
    list Z -> Z -> option (list float) -> option (list float) -> Order ->
    result (Quantity * Quantity);
  lonlat_to_index :
    Quantity -> Quantity -> Z -> bool -> Order ->
    result (list Z * option (list float * list float));
  latitude_in_range : Quantity -> bool;
  bilinear : Quantity -> Quantity -> list float -> Z -> Order -> list float;
  radius_in_range : float -> bool;
  (* the pixels of the ring band and longitude span around the centre *)
  disc_candidates : float -> float -> float -> Z -> Order -> list Z;
  (* centre-to-point distance <= radius + half the pixel resolution *)
  centre_within : float -> float -> float -> Z -> Order -> Z -> bool
}.

Module spec_core.
Section functions.
Context `{Numerics} `{!Kernel}.

(** Modelled from the spec: the missing [core.nside_to_npix] (section 4.1,
    [pixel_count]): [12 * nside^2], and [InvalidResolution] when
    [nside <= 0]. *)
Definition nside_to_npix (nside : Z) : result Z :=
  if nside <=? 0 then Raise InvalidResolution else Ok (12 * nside ^ 2).

(** Modelled from the spec: the missing [core.nside_to_pixel_area]
    (section 4.1), which goes through [pixel_count]. *)
Definition nside_to_pixel_area (nside : Z) : result float :=
  result_bind (nside_to_npix nside) (fun _ => Ok (pixel_area_of nside)).

(** Modelled from the spec: the missing [core.nside_to_pixel_resolution]
    (section 4.1), likewise. *)
Definition nside_to_pixel_resolution (nside : Z) : result float :=
  result_bind (nside_to_npix nside) (fun _ => Ok (pixel_resolution_of nside)).

(** Modelled from the spec: the missing test of a pixel index (section
    3, section 7): inside [[0, npix)]. *)
Definition index_in_range (npix : Z) (p : Z) : bool := (0 <=? p) && (p <? npix).

(** Modelled from the spec: the missing element-wise wrapper of the
    ordering converter (section 4.3, section 9): the resolution is
    validated, then every index ([InvalidIndex] outside
    [[0, pixel_count)]), then each index is converted on its own. *)
Definition convert_indices (f : Z -> Z -> Z) (index : list Z) (nside : Z)
  : result (list Z) :=
  if negb (pixel.is_power_of_two nside) then Raise InvalidResolution
  else if negb (forallb (index_in_range (12 * nside ^ 2)) index) then Raise InvalidIndex
  else Ok (map (f nside) index).

(** Modelled from the spec: the missing [core.nested_to_ring] (section
    4.3), over an array of indices. *)
Definition nested_to_ring : list Z -> Z -> result (list Z) :=
  convert_indices pixel.nested_to_ring.

(** Modelled from the spec: the missing [core.ring_to_nested] (section
    4.3), over an array of indices. *)
Definition ring_to_nested : list Z -> Z -> result (list Z) :=
  convert_indices pixel.ring_to_nested.

(** Modelled from the spec: how the missing
    [core.interpolate_bilinear_lonlat] finds the resolution, which it is
    not passed: from the length of [values], of the form [12 * nside^2]
    (the docstring of the method, lines 143-145). *)
Definition npix_to_nside (npix : Z) : option Z :=
  let n := Z.sqrt (npix / 12) in
  if (0 <? n) && (12 * n ^ 2 =? npix) then Some n else None.

(** Modelled from the spec: the missing [core.interpolate_bilinear_lonlat]
    (section 4.4): [ValueLengthMismatch] when the length of [values] is no
    pixel count, [InvalidCoordinate] for a latitude out of range, else the
    blend. *)
Definition interpolate_bilinear_lonlat (lon lat : Quantity) (values : list float)
  (order : Order) : result (list float) :=
  match npix_to_nside (Z.of_nat (length values)) with
  | None => Raise ValueLengthMismatch
  | Some n =>
      if negb (latitude_in_range lat) then Raise InvalidCoordinate
      else Ok (bilinear lon lat values n order)
  end.

(** Modelled from the spec: the missing [core.healpix_cone_search]
    (section 4.5): [InvalidArgumentShape] for vector inputs,
    [InvalidRadius] for a radius out of range; approximate mode returns the
    ring and longitude-span enumeration as it is, exact mode keeps the
    candidates that pass the distance test.  The flag is read for its
    truth value. *)
Definition healpix_cone_search (lon lat radius : Quantity) (nside : Z)
  (order : Order) (approximate : pyvalue) : result (list Z) :=
  match lon, lat, radius with
  | Scalar lo, Scalar la, Scalar r =>
      if negb (radius_in_range r) then Raise InvalidRadius
      else
        let candidates := disc_candidates lo la r nside order in
        Ok (if truthy approximate then candidates
            else List.filter (centre_within lo la r nside order) candidates)
  | _, _, _ => Raise InvalidArgumentShape
  end.

(** Modelled from the spec: the missing core as a whole.  The two
    coordinate conversions are floating-point work and stay parameters. *)
Definition spec : core.Core := {|
  core.nside_to_pixel_area := nside_to_pixel_area;
  core.nside_to_pixel_resolution := nside_to_pixel_resolution;
  core.nside_to_npix := nside_to_npix;
  core.healpix_to_lonlat := index_to_lonlat;
  core.lonlat_to_healpix := lonlat_to_index;
  core.interpolate_bilinear_lonlat := interpolate_bilinear_lonlat;
  core.ring_to_nested := ring_to_nested;
  core.nested_to_ring := nested_to_ring;
  core.healpix_cone_search := healpix_cone_search
|}.

End functions.
End spec_core.

(** ** Calls *)

(** Every property and method of [HEALPix], with its arguments. *)
Inductive HEALPix_call `{Numerics} :=
| get_pixel_area
| get_pixel_resolution
| get_npix
| do_healpix_to_lonlat (healpix_index : list Z) (dx dy : option (list float))
| do_lonlat_to_healpix (lon lat : Quantity) (return_offsets : option bool)
| do_nested_to_ring (nested_index : list Z)
| do_ring_to_nested (ring_index : list Z)
| do_interpolate_bilinear_lonlat (lon lat : Quantity) (values : positive)
| do_cone_search_lonlat (lon lat radius : Quantity) (approximate : option pyvalue).

(** Every method of [CelestialHEALPix]: its own and the inherited ones. *)
Inductive Celestial_call `{Astropy} :=
| inherited (c : HEALPix_call)
| do_healpix_to_skycoord (healpix_index : list Z) (dx dy : option (list float))
| do_skycoord_to_healpix (skycoord : SkyCoord) (return_offsets : option bool)
| do_interpolate_bilinear_skycoord (skycoord : SkyCoord) (values : positive)
| do_cone_search_skycoord (skycoord : SkyCoord) (radius : Quantity)
    (approximate : option pyvalue).

Section Calls.
Context `{Numerics} `{!core.Core}.

(** The store a call leaves behind, whatever it returns or raises. *)
Definition store_after {S} `{!HEALPixLike S} (c : HEALPix_call) (w : world S) : world S :=
  match c with
  | get_pixel_area => snd (HEALPix.pixel_area w)
  | get_pixel_resolution => snd (HEALPix.pixel_resolution w)
  | get_npix => snd (HEALPix.npix w)
  | do_healpix_to_lonlat i dx dy => snd (HEALPix.healpix_to_lonlat i dx dy w)
  | do_lonlat_to_healpix lon lat r => snd (HEALPix.lonlat_to_healpix lon lat r w)
  | do_nested_to_ring i => snd (HEALPix.nested_to_ring i w)
  | do_ring_to_nested i => snd (HEALPix.ring_to_nested i w)
  | do_interpolate_bilinear_lonlat lon lat v =>
      snd (HEALPix.interpolate_bilinear_lonlat lon lat v w)
  | do_cone_search_lonlat lon lat r a => snd (HEALPix.cone_search_lonlat lon lat r a w)
  end.

Definition celestial_store_after `{!Astropy} (c : Celestial_call)
  (w : world CelestialHEALPix) : world CelestialHEALPix :=
  match c with
  | inherited c => store_after c w
  | do_healpix_to_skycoord i dx dy => snd (CelestialHEALPix.healpix_to_skycoord i dx dy w)
  | do_skycoord_to_healpix sc r => snd (CelestialHEALPix.skycoord_to_healpix sc r w)
  | do_interpolate_bilinear_skycoord sc v =>
      snd (CelestialHEALPix.interpolate_bilinear_skycoord sc v w)
  | do_cone_search_skycoord sc r a => snd (CelestialHEALPix.cone_search_skycoord sc r a w)
  end.

(** A computation that only reads the store. *)
Definition read_only {S A} (c : M S A) : Prop := forall w, snd (c w) = w.

End Calls.

(** ** A small instance

    Integers stand for the floating-point numbers, one frame, and a
    kernel simple enough to evaluate; the methods run on it. *)

Module sample.

Definition numerics : Numerics := {| float := Z |}.
#[local] Existing Instance numerics.

Definition kernel : Kernel := {|
  pixel_area_of := fun _ => 0;
  pixel_resolution_of := fun _ => 0;
  index_to_lonlat := fun i _ _ _ _ => Ok (Array i, Array i);
  lonlat_to_index := fun _ _ _ _ _ => Ok ([], None);
  latitude_in_range := fun _ => true;
  bilinear := fun _ _ vs _ _ => vs;
  radius_in_range := fun r => (0 <=? r) && (r <=? 3);
  disc_candidates := fun _ _ _ n _ => [0; 1; 2; 3];
  centre_within := fun _ _ _ _ _ p => p <? 2
|}.
#[local] Existing Instance kernel.

Definition astropy : Astropy := {|
  Frame := unit;
  SkyCoord := Z * Z;
  ICRS := tt;
  transform_to := fun sc _ => sc;
  represent_as_unit_spherical := fun sc => (Scalar (fst sc), Scalar (snd sc));
  realize_frame := fun _ _ _ => (0, 0)
|}.
#[local] Existing Instance astropy.

Definition the_core : core.Core := spec_core.spec.

Definition scalar (x : Z) : Quantity := Scalar x.
Definition array (xs : list Z) : Quantity := Array xs.
Definition position (lon lat : Z) : SkyCoord := (lon, lat).

(** A [HEALPix(nside=1)] and a [CelestialHEALPix(nside=2, order='nested')],
    each with a twelve-element array at reference 1 and a three-element
    one at reference 2. *)
Definition arrays : gmap positive (list float) :=
  <[1%positive := [0; 1; 2; 3; 4; 5; 6; 7; 8; 9; 10; 11]]>
    (<[2%positive := [7; 8; 9]]> ∅).

Definition plain (n : Z) : world HEALPix :=
  World {| nside := n; order := ring |} arrays.

Definition celestial (n : Z) : world CelestialHEALPix :=
  World {| base := {| nside := n; order := nested |}; frame := tt |} arrays.

End sample.

(** ** An instance whose conversions are inverse

    The coordinates of a pixel are its index itself, and a sky coordinate
    is its pair of longitude and latitude in the one frame there is. *)

Module mirror.

#[local] Existing Instance sample.numerics.

Definition kernel : Kernel := {|
  pixel_area_of := fun _ => 0;
  pixel_resolution_of := fun _ => 0;
  index_to_lonlat := fun i _ _ _ _ => Ok (Array i, Array i);
  lonlat_to_index := fun lon _ _ _ _ =>
    Ok (match lon with Scalar x => [x] | Array xs => xs end, None);
  latitude_in_range := fun _ => true;
  bilinear := fun _ _ vs _ _ => vs;
  radius_in_range := fun r => (0 <=? r) && (r <=? 3);
  disc_candidates := fun _ _ _ n _ => [0; 1; 2; 3];
  centre_within := fun _ _ _ _ _ p => p <? 2
|}.
#[local] Existing Instance kernel.

Definition astropy : Astropy := {|
  Frame := unit;
  SkyCoord := Quantity * Quantity;
  ICRS := tt;
  transform_to := fun sc _ => sc;
  represent_as_unit_spherical := fun sc => sc;
  realize_frame := fun _ lon lat => (lon, lat)
|}.
#[local] Existing Instance astropy.

Definition the_core : core.Core := spec_core.spec.

Definition celestial (n : Z) : world CelestialHEALPix :=
  World {| base := {| nside := n; order := nested |}; frame := tt |} sample.arrays.

End mirror.

(** * Properties *)

(** ** The store is only read *)

Section ReadOnly.
Context `{Numerics} {S : Type}.

Lemma read_only_ret {A} (a : A) : read_only (S := S) (ret a).
Proof. intros w. reflexivity. Qed.

Lemma read_only_raise {A} (e : error) : read_only (S := S) (A := A) (raise e).
Proof. intros w. reflexivity. Qed.

Lemma read_only_getattr {A} (f : S -> A) : read_only (getattr f).
Proof. intros w. reflexivity. Qed.

Lemma read_only_call {A} (r : result A) : read_only (S := S) (call r).
Proof. intros w. reflexivity. Qed.

Lemma read_only_deref (l : positive) : read_only (S := S) (deref l).
Proof. intros w. unfold deref. destruct (w_arrays w !! l); reflexivity. Qed.

Lemma read_only_bind {A B} (c : M S A) (k : A -> M S B) :
  read_only c -> (forall a, read_only (k a)) -> read_only (bind c k).
Proof.
  intros Hc Hk w. unfold bind.
  specialize (Hc w). destruct (c w) as [[a | e] w']; simpl in Hc; subst w'.
  - apply Hk.
  - reflexivity.
Qed.

Lemma read_only_len (l : positive) : read_only (S := S) (len l).
Proof.
  apply read_only_bind; [apply read_only_deref | intros; apply read_only_ret].
Qed.

Lemma read_only_if {A} (b : bool) (c1 c2 : M S A) :
  read_only c1 -> read_only c2 -> read_only (if b then c1 else c2).
Proof. destruct b; auto. Qed.

End ReadOnly.

Create HintDb read_only.
#[export] Hint Resolve read_only_ret read_only_raise read_only_getattr read_only_call
  read_only_deref read_only_len : read_only.
#[export] Hint Extern 2 (read_only (bind _ _)) =>
  apply read_only_bind; [ | intros ] : read_only.
#[export] Hint Extern 2 (read_only (if _ then _ else _)) =>
  apply read_only_if : read_only.

Section MethodsReadOnly.
Context `{Numerics} `{!core.Core} {S : Type} `{!HEALPixLike S}.

Lemma self_nside_read_only : read_only (HEALPix.self_nside (S := S)).
Proof. unfold HEALPix.self_nside. auto with read_only. Qed.

Lemma self_order_read_only : read_only (HEALPix.self_order (S := S)).
Proof. unfold HEALPix.self_order. auto with read_only. Qed.

Hint Resolve self_nside_read_only self_order_read_only : read_only.

Lemma npix_read_only : read_only (HEALPix.npix (S := S)).
Proof. unfold HEALPix.npix. auto with read_only. Qed.

Hint Resolve npix_read_only : read_only.

Lemma healpix_to_lonlat_read_only i dx dy :
  read_only (HEALPix.healpix_to_lonlat (S := S) i dx dy).
Proof. unfold HEALPix.healpix_to_lonlat. auto 6 with read_only. Qed.

Lemma lonlat_to_healpix_read_only lon lat r :
  read_only (HEALPix.lonlat_to_healpix (S := S) lon lat r).
Proof. unfold HEALPix.lonlat_to_healpix. auto 6 with read_only. Qed.

Lemma interpolate_bilinear_lonlat_read_only lon lat v :
  read_only (HEALPix.interpolate_bilinear_lonlat (S := S) lon lat v).
Proof. unfold HEALPix.interpolate_bilinear_lonlat. auto 10 with read_only. Qed.

Lemma cone_search_lonlat_read_only lon lat r a :
  read_only (HEALPix.cone_search_lonlat (S := S) lon lat r a).
Proof. unfold HEALPix.cone_search_lonlat. auto 8 with read_only. Qed.

Lemma geometry_read_only :
  read_only (HEALPix.pixel_area (S := S)) /\
  read_only (HEALPix.pixel_resolution (S := S)).
Proof.
  unfold HEALPix.pixel_area, HEALPix.pixel_resolution.
  split; auto with read_only.
Qed.

Lemma ordering_read_only i :
  read_only (HEALPix.nested_to_ring (S := S) i) /\
  read_only (HEALPix.ring_to_nested (S := S) i).
Proof.
  unfold HEALPix.nested_to_ring, HEALPix.ring_to_nested.
  split; auto with read_only.
Qed.

Lemma HEALPix_calls_read_only (c : HEALPix_call) (w : world S) : store_after c w = w.
Proof.
  destruct c; cbn [store_after].
  - apply geometry_read_only.
  - apply geometry_read_only.
  - apply npix_read_only.
  - apply healpix_to_lonlat_read_only.
  - apply lonlat_to_healpix_read_only.
  - apply ordering_read_only.
  - apply ordering_read_only.
  - apply interpolate_bilinear_lonlat_read_only.
  - apply cone_search_lonlat_read_only.
Qed.

End MethodsReadOnly.

Section CelestialReadOnly.
Context `{Numerics} `{!core.Core} `{!Astropy}.

Lemma celestial_calls_read_only (c : Celestial_call) (w : world CelestialHEALPix) :
  celestial_store_after c w = w.
Proof.
  destruct c as [c | i dx dy | sc r | sc v | sc r a]; cbn [celestial_store_after].
  - apply HEALPix_calls_read_only.
  - unfold CelestialHEALPix.healpix_to_skycoord, CelestialHEALPix.self_frame.
    apply read_only_bind; [apply healpix_to_lonlat_read_only | intros].
    auto with read_only.
  - unfold CelestialHEALPix.skycoord_to_healpix, CelestialHEALPix.self_frame.
    apply read_only_bind; [auto with read_only | intros].
    apply lonlat_to_healpix_read_only.
  - unfold CelestialHEALPix.interpolate_bilinear_skycoord, CelestialHEALPix.self_frame.
    apply read_only_bind; [auto with read_only | intros].
    apply interpolate_bilinear_lonlat_read_only.
  - unfold CelestialHEALPix.cone_search_skycoord, CelestialHEALPix.self_frame.
    apply read_only_bind; [auto with read_only | intros].
    apply read_only_bind; [apply self_nside_read_only | intros].
    apply cone_search_lonlat_read_only.
Qed.

(** C9.  Every property and method of a [HEALPix] or a [CelestialHEALPix]
    object leaves the store as it found it, whether it returns or raises:
    the attributes [nside], [order] and [frame] of the object are the same
    after the call as before, and so is every array the caller holds a
    reference to, the [values] array among them.  The call's only effect
    is its result. *)
Theorem calls_leave_store_unchanged :
  (forall (c : HEALPix_call) (w : world HEALPix),
      store_after c w = w /\
      nside (w_self (store_after c w)) = nside (w_self w) /\
      order (w_self (store_after c w)) = order (w_self w) /\
      w_arrays (store_after c w) = w_arrays w) /\
  (forall (c : Celestial_call) (w : world CelestialHEALPix),
      celestial_store_after c w = w /\
      nside (base (w_self (celestial_store_after c w))) = nside (base (w_self w)) /\
      order (base (w_self (celestial_store_after c w))) = order (base (w_self w)) /\
      frame (w_self (celestial_store_after c w)) = frame (w_self w) /\
      w_arrays (celestial_store_after c w) = w_arrays w).
Proof.
  split; intros c w.
  - rewrite HEALPix_calls_read_only. auto.
  - rewrite celestial_calls_read_only. repeat split.
Qed.

End CelestialReadOnly.

(** ** What the methods pass on *)

Section Forwarding.
Context `{Numerics} `{!core.Core} {S : Type} `{!HEALPixLike S}.

Lemma npix_eq (w : world S) :
  HEALPix.npix w = (core.nside_to_npix (nside (healpix_of (w_self w))), w).
Proof. reflexivity. Qed.

Lemma len_eq (values : positive) (w : world S) :
  len values w =
  (match w_arrays w !! values with
   | Some vs => Ok (Z.of_nat (length vs))
   | None => Raise TypeError
   end, w).
Proof. unfold len, bind, deref. destruct (w_arrays w !! values); reflexivity. Qed.

Lemma nested_to_ring_eq index (w : world S) :
  HEALPix.nested_to_ring index w =
  (core.nested_to_ring index (nside (healpix_of (w_self w))), w).
Proof. reflexivity. Qed.

Lemma ring_to_nested_eq index (w : world S) :
  HEALPix.ring_to_nested index w =
  (core.ring_to_nested index (nside (healpix_of (w_self w))), w).
Proof. reflexivity. Qed.

(** [cone_search_lonlat], in one equation: the guard, then the core. *)
Lemma cone_search_lonlat_eq lon lat radius approximate (w : world S) :
  HEALPix.cone_search_lonlat lon lat radius approximate w =
  (if isscalar lon && isscalar lat && isscalar radius then
     core.healpix_cone_search lon lat radius
       (nside (healpix_of (w_self w))) (order (healpix_of (w_self w)))
       (default (PyBool false) approximate)
   else Raise InvalidArgumentShape, w).
Proof.
  unfold HEALPix.cone_search_lonlat.
  destruct (isscalar lon), (isscalar lat), (isscalar radius); reflexivity.
Qed.

(** [interpolate_bilinear_lonlat], in one equation: the length of the
    array, the pixel count, the comparison, then the core. *)
Lemma interpolate_bilinear_lonlat_eq lon lat values (w : world S) :
  HEALPix.interpolate_bilinear_lonlat lon lat values w =
  (match w_arrays w !! values with
   | None => Raise TypeError
   | Some vs =>
       match core.nside_to_npix (nside (healpix_of (w_self w))) with
       | Raise e => Raise e
       | Ok p =>
           if Z.of_nat (length vs) =? p then
             core.interpolate_bilinear_lonlat lon lat vs (order (healpix_of (w_self w)))
           else Raise ValueLengthMismatch
       end
   end, w).
Proof.
  unfold HEALPix.interpolate_bilinear_lonlat.
  unfold bind at 1. rewrite len_eq.
  destruct (w_arrays w !! values) as [vs | ] eqn:Hvs; [ | reflexivity].
  unfold bind at 1. rewrite npix_eq.
  destruct (core.nside_to_npix _) as [p | e] eqn:Hp; [ | reflexivity].
  destruct (Z.of_nat (length vs) =? p) eqn:Hlen; cbn [negb].
  - unfold bind, deref, HEALPix.self_order, getattr, call. rewrite Hvs. reflexivity.
  - unfold bind at 1. rewrite npix_eq, Hp.
    unfold bind at 1. rewrite len_eq, Hvs. reflexivity.
Qed.

End Forwarding.

(** ** The default ordering *)

Section DefaultOrder.
Context `{Numerics} `{!core.Core} `{!Astropy}.

(** C10.  A [HEALPix] (or [CelestialHEALPix]) constructed without an
    [order] argument has [order = 'ring'], and on such an object every
    conversion between indices and coordinates, the interpolation and the
    cone search hand [ring] to the core as the ordering. *)
Theorem default_order_is_ring (n : Z) :
  HEALPix.__init__ (Some n) None = Ok {| nside := n; order := ring |} /\
  (forall f,
      CelestialHEALPix.__init__ (Some n) None f =
      Ok {| base := {| nside := n; order := ring |}; frame := default ICRS f |}) /\
  (forall arrays i dx dy,
      HEALPix.healpix_to_lonlat i dx dy (World {| nside := n; order := ring |} arrays) =
      (core.healpix_to_lonlat i n dx dy ring,
       World {| nside := n; order := ring |} arrays)) /\
  (forall arrays lon lat r,
      HEALPix.lonlat_to_healpix lon lat r (World {| nside := n; order := ring |} arrays) =
      (core.lonlat_to_healpix lon lat n (default false r) ring,
       World {| nside := n; order := ring |} arrays)) /\
  (forall arrays lon lat values,
      HEALPix.interpolate_bilinear_lonlat lon lat values
        (World {| nside := n; order := ring |} arrays) =
      (match arrays !! values with
       | None => Raise TypeError
       | Some vs =>
           match core.nside_to_npix n with
           | Raise e => Raise e
           | Ok p =>
               if Z.of_nat (length vs) =? p then
                 core.interpolate_bilinear_lonlat lon lat vs ring
               else Raise ValueLengthMismatch
           end
       end, World {| nside := n; order := ring |} arrays)) /\
  (forall arrays lon lat radius a,
      HEALPix.cone_search_lonlat lon lat radius a
        (World {| nside := n; order := ring |} arrays) =
      (if isscalar lon && isscalar lat && isscalar radius then
         core.healpix_cone_search lon lat radius n ring (default (PyBool false) a)
       else Raise InvalidArgumentShape, World {| nside := n; order := ring |} arrays)).
Proof.
  split; [reflexivity | ].
  split; [reflexivity | ].
  split; [reflexivity | ].
  split; [reflexivity | ].
  split; intros.
  - rewrite interpolate_bilinear_lonlat_eq. reflexivity.
  - rewrite cone_search_lonlat_eq. reflexivity.
Qed.

End DefaultOrder.

(** ** The cone search of the celestial class *)

Section ConeSearchSkycoord.
Context `{Numerics} `{!core.Core} `{!Astropy}.

(** The position that [cone_search_skycoord] searches around. *)
Lemma cone_search_skycoord_eq sc radius a (w : world CelestialHEALPix) :
  CelestialHEALPix.cone_search_skycoord sc radius a w =
  HEALPix.cone_search_lonlat
    (fst (represent_as_unit_spherical (transform_to sc (frame (w_self w)))))
    (snd (represent_as_unit_spherical (transform_to sc (frame (w_self w)))))
    radius (Some (PyInt (nside (base (w_self w))))) w.
Proof. reflexivity. Qed.

(** C3.  [cone_search_skycoord] does not use its [approximate] argument:
    whatever two values it is called with, for the same position and radius
    the two calls give the same result.  What reaches [cone_search_lonlat]
    as [approximate] is [self.nside]; with a core that reads the flag for
    its truth value, the search runs as [cone_search_lonlat] does with
    [approximate] set to whether [nside] is non-zero. *)
Theorem cone_search_skycoord_ignores_approximate
  sc radius (a b : option pyvalue) (w : world CelestialHEALPix) :
  CelestialHEALPix.cone_search_skycoord sc radius a w =
  CelestialHEALPix.cone_search_skycoord sc radius b w /\
  CelestialHEALPix.cone_search_skycoord sc radius a w =
  HEALPix.cone_search_lonlat
    (fst (represent_as_unit_spherical (transform_to sc (frame (w_self w)))))
    (snd (represent_as_unit_spherical (transform_to sc (frame (w_self w)))))
    radius (Some (PyInt (nside (base (w_self w))))) w /\
  ((forall lon lat r n o v,
       core.healpix_cone_search lon lat r n o v =
       core.healpix_cone_search lon lat r n o (PyBool (truthy v))) ->
   CelestialHEALPix.cone_search_skycoord sc radius a w =
   HEALPix.cone_search_lonlat
     (fst (represent_as_unit_spherical (transform_to sc (frame (w_self w)))))
     (snd (represent_as_unit_spherical (transform_to sc (frame (w_self w)))))
     radius (Some (PyBool (negb (nside (base (w_self w)) =? 0)))) w).
Proof.
  split; [reflexivity | ].
  split; [apply cone_search_skycoord_eq | ].
  intros Htruth.
  rewrite cone_search_skycoord_eq, !cone_search_lonlat_eq.
  cbn [default from_option]. rewrite Htruth. reflexivity.
Qed.

End ConeSearchSkycoord.

(** ** The guards of the methods *)

Section Guards.
Context `{Numerics} `{!core.Core} {S : Type} `{!HEALPixLike S}.

(** C6.  When the longitude, the latitude or the radius is an array,
    [cone_search_lonlat] raises [InvalidArgumentShape]: the result is the
    same whatever the core would compute, and the store is untouched.
    With three scalars the guard raises nothing and the result is the
    core's; given a core that raises [InvalidArgumentShape] for no scalar
    input, the error is not raised. *)
Theorem cone_search_rejects_arrays lon lat radius approximate (w : world S) :
  (isscalar lon && isscalar lat && isscalar radius = false ->
   HEALPix.cone_search_lonlat lon lat radius approximate w =
   (Raise InvalidArgumentShape, w)) /\
  (isscalar lon && isscalar lat && isscalar radius = true ->
   HEALPix.cone_search_lonlat lon lat radius approximate w =
   (core.healpix_cone_search lon lat radius
      (nside (healpix_of (w_self w))) (order (healpix_of (w_self w)))
      (default (PyBool false) approximate), w)) /\
  (isscalar lon && isscalar lat && isscalar radius = true ->
   (forall x y r n o v,
       core.healpix_cone_search (Scalar x) (Scalar y) (Scalar r) n o v <>
       Raise InvalidArgumentShape) ->
   fst (HEALPix.cone_search_lonlat lon lat radius approximate w) <>
   Raise InvalidArgumentShape).
Proof.
  rewrite cone_search_lonlat_eq.
  split; [ | split].
  - intros ->. reflexivity.
  - intros ->. reflexivity.
  - intros Hs Hcore. rewrite Hs. cbn [fst].
    destruct lon, lat, radius; try discriminate Hs. apply Hcore.
Qed.

(** C5.  Where the core gives the pixel count [p] of the object's [nside],
    [interpolate_bilinear_lonlat] raises [ValueLengthMismatch] exactly when
    the length of [values] is not [p]: a different length raises it, and
    with the length [p] the method raises nothing of its own and returns
    what the core's interpolation returns (which, for an array of that
    length, is no length error). *)
Theorem interpolate_checks_length lon lat values vs p (w : world S) :
  w_arrays w !! values = Some vs ->
  core.nside_to_npix (nside (healpix_of (w_self w))) = Ok p ->
  (Z.of_nat (length vs) = p ->
   core.interpolate_bilinear_lonlat lon lat vs (order (healpix_of (w_self w))) <>
   Raise ValueLengthMismatch) ->
  (fst (HEALPix.interpolate_bilinear_lonlat lon lat values w) = Raise ValueLengthMismatch
   <-> Z.of_nat (length vs) <> p) /\
  (Z.of_nat (length vs) = p ->
   HEALPix.interpolate_bilinear_lonlat lon lat values w =
   (core.interpolate_bilinear_lonlat lon lat vs (order (healpix_of (w_self w))), w)).
Proof.
  intros Hvs Hp Hcore.
  rewrite interpolate_bilinear_lonlat_eq, Hvs, Hp. cbn [fst].
  destruct (Z.eqb_spec (Z.of_nat (length vs)) p) as [Heq | Hne].
  - split; [ | reflexivity].
    split; [intros Hr; exfalso; exact (Hcore Heq Hr) | intros Hn; contradiction].
  - split; [ | intros Heq; contradiction].
    split; [intros _; exact Hne | reflexivity].
Qed.

End Guards.

(** ** Construction *)

(** The constructor rejects a missing [nside] and nothing else: it returns
    an object for [nside = 0] and for a negative [nside], where the claim
    C7 has it fail with [InvalidResolution]. *)
Lemma constructor_accepts_nonpositive_nside :
  HEALPix.__init__ None None = Raise NsideNotSet /\
  HEALPix.__init__ (Some 0) None = Ok {| nside := 0; order := ring |} /\
  HEALPix.__init__ (Some (-4)) (Some nested) = Ok {| nside := -4; order := nested |} /\
  HEALPix.__init__ (Some 0) None <> Raise InvalidResolution.
Proof. repeat split. discriminate. Qed.

(** ** Against the core of the specification *)

Section OnSpecCore.
Context `{Numerics} `{!Kernel} {S : Type} `{!HEALPixLike S}.
Existing Instance spec_core.spec.

Lemma spec_cone_search_reads_truth lon lat r n o v :
  spec_core.healpix_cone_search lon lat r n o v =
  spec_core.healpix_cone_search lon lat r n o (PyBool (truthy v)).
Proof. reflexivity. Qed.

Lemma spec_cone_search_scalars x y r n o v :
  spec_core.healpix_cone_search (Scalar x) (Scalar y) (Scalar r) n o v <>
  Raise InvalidArgumentShape.
Proof.
  unfold spec_core.healpix_cone_search.
  destruct (radius_in_range r); cbn [negb]; discriminate.
Qed.

(** C8.  For a positive [nside], the [npix] property of the object is
    exactly [12 * nside^2]. *)
Theorem npix_is_twelve_nside_squared (w : world S) :
  0 < nside (healpix_of (w_self w)) ->
  HEALPix.npix w = (Ok (12 * nside (healpix_of (w_self w)) ^ 2), w).
Proof.
  intros Hpos. rewrite npix_eq. cbn [core.nside_to_npix spec_core.spec].
  unfold spec_core.nside_to_npix.
  destruct (Z.leb_spec (nside (healpix_of (w_self w))) 0); [lia | reflexivity].
Qed.

(** C7, as the code has it.  For [nside <= 0] the pixel count fails with
    [InvalidResolution]: reading [npix] raises it.  The constructor does
    not: it accepts every [nside] that is given and stores it. *)
Theorem nonpositive_nside_fails_at_npix (n : Z) (o : option Order) :
  n <= 0 ->
  HEALPix.__init__ (Some n) o = Ok {| nside := n; order := default ring o |} /\
  (forall w : world S,
      nside (healpix_of (w_self w)) = n ->
      HEALPix.npix w = (Raise InvalidResolution, w)).
Proof.
  intros Hn. split; [reflexivity | ].
  intros w Hw. rewrite npix_eq, Hw. cbn [core.nside_to_npix spec_core.spec].
  unfold spec_core.nside_to_npix.
  destruct (Z.leb_spec n 0); [reflexivity | lia].
Qed.

(** C4.  For a scalar position and a radius in range, both modes of the
    cone search return, and every pixel that the exact mode returns is
    among those that the approximate mode returns. *)
Theorem approximate_cone_search_is_superset lo la r (w : world S) :
  radius_in_range r = true ->
  exists exact approx,
    HEALPix.cone_search_lonlat (Scalar lo) (Scalar la) (Scalar r)
      (Some (PyBool false)) w = (Ok exact, w) /\
    HEALPix.cone_search_lonlat (Scalar lo) (Scalar la) (Scalar r)
      (Some (PyBool true)) w = (Ok approx, w) /\
    incl exact approx.
Proof.
  intros Hr. rewrite !cone_search_lonlat_eq.
  cbn [isscalar andb default from_option core.healpix_cone_search spec_core.spec].
  unfold spec_core.healpix_cone_search. rewrite Hr. cbn [negb truthy].
  eexists _, _. split; [reflexivity | split; [reflexivity | ]].
  intros p Hp. apply List.filter_In in Hp. tauto.
Qed.

End OnSpecCore.

(** ** The properties on the small instance *)

Section OnSample.
Existing Instance sample.numerics.
Existing Instance sample.kernel.
Existing Instance sample.astropy.
Existing Instance sample.the_core.
Import sample.

Lemma npix_is_twelve_nside_squared_at_4 :
  HEALPix.npix (plain 4) = (Ok 192, plain 4).
Proof.
  exact (npix_is_twelve_nside_squared (plain 4) eq_refl).
Defined.

Lemma nonpositive_nside_fails_at_npix_at_0 :
  HEALPix.__init__ (Some 0) None = Ok {| nside := 0; order := ring |} /\
  HEALPix.npix (plain 0) = (Raise InvalidResolution, plain 0).
Proof.
  destruct (nonpositive_nside_fails_at_npix (S := HEALPix) 0 None) as [Hinit Hnpix].
  - lia.
  - split; [exact Hinit | apply Hnpix; reflexivity].
Defined.

Lemma approximate_cone_search_is_superset_at_radius_1 :
  exists exact approx,
    HEALPix.cone_search_lonlat (scalar 5) (scalar 0) (scalar 1)
      (Some (PyBool false)) (plain 4) = (Ok exact, plain 4) /\
    HEALPix.cone_search_lonlat (scalar 5) (scalar 0) (scalar 1)
      (Some (PyBool true)) (plain 4) = (Ok approx, plain 4) /\
    incl exact approx.
Proof.
  exact (approximate_cone_search_is_superset (5 : float) (0 : float) (1 : float)
           (plain 4) eq_refl).
Defined.

Lemma cone_search_skycoord_ignores_approximate_at_nside_2 :
  CelestialHEALPix.cone_search_skycoord (position 5 0) (scalar 1) (Some (PyBool false))
    (celestial 2) =
  HEALPix.cone_search_lonlat (scalar 5) (scalar 0) (scalar 1) (Some (PyBool true))
    (celestial 2).
Proof.
  exact (proj2 (proj2 (cone_search_skycoord_ignores_approximate
                         (position 5 0) (scalar 1) (Some (PyBool false)) None
                         (celestial 2)))
           spec_cone_search_reads_truth).
Defined.

Lemma cone_search_rejects_arrays_at_a_pair :
  HEALPix.cone_search_lonlat (array [5; 6]) (scalar 0) (scalar 1) None (plain 4) =
  (Raise InvalidArgumentShape, plain 4) /\
  fst (HEALPix.cone_search_lonlat (scalar 5) (scalar 0) (scalar 1) None (plain 4)) <>
  Raise InvalidArgumentShape.
Proof.
  split.
  - exact (proj1 (cone_search_rejects_arrays
                    (array [5; 6]) (scalar 0) (scalar 1) None (plain 4)) eq_refl).
  - exact (proj2 (proj2 (cone_search_rejects_arrays
                           (scalar 5) (scalar 0) (scalar 1) None (plain 4)))
             eq_refl spec_cone_search_scalars).
Defined.

Lemma interpolate_checks_length_at_nside_1 :
  fst (HEALPix.interpolate_bilinear_lonlat (scalar 5) (scalar 0) 2%positive (plain 1)) =
  Raise ValueLengthMismatch /\
  HEALPix.interpolate_bilinear_lonlat (scalar 5) (scalar 0) 1%positive (plain 1) =
  (Ok [0; 1; 2; 3; 4; 5; 6; 7; 8; 9; 10; 11], plain 1).
Proof.
  split.
  - apply (interpolate_checks_length
             (scalar 5) (scalar 0) 2%positive [7; 8; 9] 12 (plain 1));
      [reflexivity | reflexivity | intros Hlen; discriminate Hlen
      | intros Hlen; discriminate Hlen].
  - refine (proj2 (interpolate_checks_length
                     (scalar 5) (scalar 0) 1%positive
                     [0; 1; 2; 3; 4; 5; 6; 7; 8; 9; 10; 11] 12 (plain 1) _ _ _) _);
      [reflexivity | reflexivity | intros _; discriminate | reflexivity].
Defined.

End OnSample.

(** ** The two numberings of the pixels *)

Module pixel_facts.
Import pixel.

(** *** Rings *)

(** A quotient is known from the interval the dividend lies in. *)
Lemma div_interval a d q : 0 < d -> q * d <= a < q * d + d -> a / d = q.
Proof. intros Hd Ha. symmetry. apply (Z.div_unique a d q (a - q * d)); lia. Qed.

Lemma mod_interval a d q : 0 < d -> q * d <= a < q * d + d -> a mod d = a - q * d.
Proof. intros Hd Ha. symmetry. apply (Z.mod_unique a d q (a - q * d)); lia. Qed.

(** The ring of a cap from the square root: between two odd squares. *)
Lemma half_sqrt m r : 1 <= r -> (2 * r - 1) * (2 * r - 1) <= m < (2 * r + 1) * (2 * r + 1) ->
  (1 + Z.sqrt m) / 2 = r.
Proof.
  intros Hr Hm.
  assert (H0 : 0 <= m) by nia.
  assert (Hs : 2 * r - 1 <= Z.sqrt m < 2 * r + 1).
  { split.
    - apply Z.sqrt_le_square; [lia | lia | tauto].
    - apply Z.sqrt_lt_square; [lia | lia | tauto]. }
  apply div_interval; lia.
Qed.

(** A ring and a position in it give an index, from which [ring_locate]
    finds them again. *)
Lemma ring_locate_index n rp : 0 < n -> ringpos_valid n rp ->
  0 <= ring_index n rp < 12 * n * n /\ ring_locate n (ring_index n rp) = rp.
Proof.
  intros Hn [Hjr Hjp]. destruct rp as [jr jp]. cbn [fst snd] in *.
  unfold ring_index, ring_locate, ring_first, ring_quarter in *. cbn [fst snd].
  destruct (Z.ltb_spec jr n) as [Hnorth | Hnorth].
  - assert (H1 : 2 * jr * (jr - 1) + jp - 1 < 2 * n * (n - 1)) by nia.
    destruct (Z.ltb_spec (2 * jr * (jr - 1) + jp - 1) (2 * n * (n - 1))); [ | lia].
    split; [nia | ].
    rewrite (half_sqrt _ jr); [ f_equal; lia | lia | nia ].
  - destruct (Z.ltb_spec (3 * n) jr) as [Hsouth | Hsouth].
    + set (i := 4 * n - jr) in *.
      assert (Hi : 1 <= i < n) by lia.
      assert (H1 : 12 * n * n - 2 * n * (n - 1) <= 12 * n * n - 2 * (i + 1) * i + jp - 1) by nia.
      destruct (Z.ltb_spec (12 * n * n - 2 * (i + 1) * i + jp - 1) (2 * n * (n - 1))); [nia | ].
      destruct (Z.ltb_spec (12 * n * n - 2 * (i + 1) * i + jp - 1) (12 * n * n - 2 * n * (n - 1))); [lia | ].
      split; [nia | ].
      rewrite (half_sqrt _ i); [ f_equal; lia | lia | nia ].
    + set (q := jr - n) in *.
      assert (Hq : 0 <= q <= 2 * n) by lia.
      destruct (Z.ltb_spec (2 * n * (n - 1) + q * (4 * n) + jp - 1) (2 * n * (n - 1))); [nia | ].
      destruct (Z.ltb_spec (2 * n * (n - 1) + q * (4 * n) + jp - 1) (12 * n * n - 2 * n * (n - 1))); [ | nia].
      split; [nia | ].
      replace (2 * n * (n - 1) + q * (4 * n) + jp - 1 - 2 * n * (n - 1)) with (q * (4 * n) + (jp - 1)) by lia.
      rewrite (div_interval _ (4 * n) q), (mod_interval _ (4 * n) q) by lia.
      f_equal; lia.
Qed.

Lemma half_sqrt_bounds m : 1 <= m ->
  let i := (1 + Z.sqrt m) / 2 in
  1 <= i /\ (2 * i - 1) * (2 * i - 1) <= m < (2 * i + 1) * (2 * i + 1).
Proof.
  intros Hm i.
  pose proof (Z.sqrt_spec m ltac:(lia)) as Hs. cbv zeta in Hs.
  assert (Hs0 : 0 <= Z.sqrt m) by apply Z.sqrt_nonneg.
  set (s := Z.sqrt m) in *.
  assert (Hi : 2 * i <= 1 + s < 2 * i + 2).
  { subst i. pose proof (Z.div_mod (1 + s) 2 ltac:(lia)).
    pose proof (Z.mod_pos_bound (1 + s) 2 ltac:(lia)). lia. }
  clearbody i s. unfold Z.succ in Hs.
  assert (Hs1 : 1 <= s) by nia.
  assert (Hlo : (2 * i - 1) * (2 * i - 1) <= s * s)
    by (apply Z.mul_le_mono_nonneg; lia).
  assert (Hhi : (s + 1) * (s + 1) <= (2 * i + 1) * (2 * i + 1))
    by (apply Z.mul_le_mono_nonneg; lia).
  lia.
Qed.

(** Every index below [12 n^2] lies on a ring, at a position inside it. *)
Lemma ring_index_locate n pix : 0 < n -> 0 <= pix < 12 * n * n ->
  ringpos_valid n (ring_locate n pix) /\ ring_index n (ring_locate n pix) = pix.
Proof.
  intros Hn Hpix. unfold ring_locate.
  destruct (Z.ltb_spec pix (2 * n * (n - 1))) as [Hnorth | Hnorth].
  - destruct (half_sqrt_bounds (1 + 2 * pix) ltac:(lia)) as [Hi Hm].
    set (i := (1 + Z.sqrt (1 + 2 * pix)) / 2) in *. clearbody i.
    assert (Hin : i < n) by nia.
    unfold ringpos_valid, ring_index, ring_first, ring_quarter. cbn [fst snd].
    destruct (Z.ltb_spec i n); [ | lia].
    split; [split; [lia | nia] | lia].
  - destruct (Z.ltb_spec pix (12 * n * n - 2 * n * (n - 1))) as [Hsouth | Hsouth].
    + set (ip := pix - 2 * n * (n - 1)) in *.
      assert (Hip : 0 <= ip < (2 * n + 1) * (4 * n)) by (subst ip; nia).
      pose proof (Z.div_mod ip (4 * n) ltac:(lia)) as Hdm.
      pose proof (Z.mod_pos_bound ip (4 * n) ltac:(lia)) as Hmod.
      assert (Hq : 0 <= ip / (4 * n) <= 2 * n).
      { split; [apply Z.div_pos; lia | ].
        apply Z.lt_succ_r. apply Z.div_lt_upper_bound; lia. }
      set (q := ip / (4 * n)) in *. set (r := ip mod (4 * n)) in *. clearbody q r.
      unfold ringpos_valid, ring_index, ring_first, ring_quarter. cbn [fst snd].
      destruct (Z.ltb_spec (q + n) n); [lia | ].
      destruct (Z.ltb_spec (3 * n) (q + n)); [lia | ].
      split; [lia | ]. subst ip. nia.
    + set (ip := 12 * n * n - pix) in *.
      assert (Hip : 1 <= ip <= 2 * n * (n - 1)) by (subst ip; lia).
      destruct (half_sqrt_bounds (2 * ip - 1) ltac:(lia)) as [Hi Hm].
      set (i := (1 + Z.sqrt (2 * ip - 1)) / 2) in *. clearbody i.
      assert (Hin : i < n) by nia.
      unfold ringpos_valid, ring_index, ring_first, ring_quarter. cbn [fst snd].
      destruct (Z.ltb_spec (4 * n - i) n); [lia | ].
      destruct (Z.ltb_spec (3 * n) (4 * n - i)); [ | lia].
      split; [split; [lia | nia] | ]. subst ip. nia.
Qed.

(** *** Tiles and rings *)

Lemma xyf_valid_spec n t : xyf_valid n t = true <->
  0 <= face t < 12 /\ 0 <= ix t < n /\ 0 <= iy t < n.
Proof. unfold xyf_valid. rewrite !andb_true_iff, !Z.leb_le, !Z.ltb_lt. lia. Qed.

(** Every ring number falls in one of the three bands. *)
Lemma zone_cases n jr : zone n jr.
Proof.
  destruct (jr <? n) eqn:E1.
  - apply north_cap; [apply Z.ltb_lt, E1 | ..];
      unfold ring_quarter, ring_shift, ringpos_face; rewrite ?E1; auto.
  - destruct (3 * n <? jr) eqn:E2.
    + apply south_cap; [apply Z.ltb_lt, E2 | ..];
        unfold ring_quarter, ring_shift, ringpos_face; rewrite ?E1, ?E2; auto.
    + apply belt; [apply Z.ltb_ge in E1, E2; lia | ..];
        unfold ring_quarter, ring_shift, ringpos_face; rewrite ?E1, ?E2; auto.
Qed.

(** The layout constants of the polar and the equatorial tiles. *)
Lemma tiles c : 0 <= c < 4 ->
  jrll c = 2 /\ jpll c = 2 * c + 1 /\
  jrll (4 + c) = 3 /\ jpll (4 + c) = 2 * c /\
  jrll (8 + c) = 4 /\ jpll (8 + c) = 2 * c + 1.
Proof.
  intros Hc. assert (H : c = 0 \/ c = 1 \/ c = 2 \/ c = 3) by lia.
  destruct H as [-> | [-> | [-> | ->]]]; repeat split; reflexivity.
Qed.

Lemma lor_4 c : 0 <= c < 4 -> Z.lor c 4 = c + 4.
Proof.
  intros Hc. assert (H : c = 0 \/ c = 1 \/ c = 2 \/ c = 3) by lia.
  destruct H as [-> | [-> | [-> | ->]]]; reflexivity.
Qed.

Lemma half_exact e q : e = 2 * q -> e / 2 = q.
Proof. intros ->. rewrite Z.mul_comm. apply Z.div_mul. lia. Qed.

Lemma parity j : exists h k, j = 2 * h + k /\ 0 <= k < 2 /\ j mod 2 = k /\ j / 2 = h.
Proof.
  exists (j / 2), (j mod 2). pose proof (Z.div_mod j 2 ltac:(lia)).
  pose proof (Z.mod_pos_bound j 2 ltac:(lia)). lia.
Qed.

(* the two half-ring offsets of the belt *)
Lemma belt_halves n jr h k : jr - n = 2 * h + k -> 0 <= k < 2 ->
  (jr - n + 1) / 2 = h + k /\ (2 * n + 2 - (jr - n + 1)) / 2 = n - h.
Proof. intros Hh Hk. split; apply div_interval; lia. Qed.

(** The local coordinates from the two diagonals [x - y] and [x + y]. *)
Lemma decode_xy a ipt irt x y : ipt = x - y -> irt = - x - y ->
  {| face := a; ix := (ipt - irt) / 2; iy := (- ipt - irt) / 2 |} =
  {| face := a; ix := x; iy := y |}.
Proof. intros -> ->. f_equal; apply half_exact; lia. Qed.

(** From a pixel of a tile to its ring and position and back, for the four
    tiles around the north pole: in the cap, then in the belt. *)
Lemma ringpos_xyf_north n c x y : 0 < n -> 0 <= c < 4 -> 0 <= x < n -> 0 <= y < n ->
  ringpos_valid n (xyf_to_ringpos n {| face := c; ix := x; iy := y |}) /\
  ringpos_to_xyf n (xyf_to_ringpos n {| face := c; ix := x; iy := y |}) =
  {| face := c; ix := x; iy := y |}.
Proof.
  intros Hn Hc Hx Hy. destruct (tiles c Hc) as (Ha & Hb & _).
  unfold xyf_to_ringpos. cbn [face ix iy]. rewrite Ha, Hb.
  remember (2 * n - x - y - 1) as jr eqn:Hjr.
  destruct (zone_cases n jr) as [Hz Hq Hs Hf | Hz Hq Hs Hf | Hz Hq Hs Hf]; [ | | lia].
  - rewrite Hq, Hs.
    rewrite (half_exact _ (c * jr + n - y)) by lia.
    assert (Hcj : 0 <= c * jr <= 3 * jr) by nia.
    destruct (Z.ltb_spec (c * jr + n - y) 1); [lia | ].
    split; [unfold ringpos_valid; cbn [fst snd]; rewrite Hq; lia | ].
    unfold ringpos_to_xyf. rewrite Hq, Hs, Hf.
    rewrite (div_interval _ jr c) by lia. rewrite Ha, Hb.
    destruct (Z.leb_spec (2 * n) (2 * (c * jr + n - y) - (2 * c + 1) * jr - 0 - 1)); [lia | ].
    apply decode_xy; lia.
  - rewrite Hq, Hs.
    destruct (parity (jr - n)) as (h & k & Hh & Hk & Hmod & _). rewrite Hmod.
    rewrite (half_exact _ ((c + 1) * n - y - h)) by lia.
    assert (Hcn : 0 <= c * n <= 3 * n) by nia.
    destruct (Z.ltb_spec ((c + 1) * n - y - h) 1); [lia | ].
    split; [unfold ringpos_valid; cbn [fst snd]; rewrite Hq; lia | ].
    unfold ringpos_to_xyf. rewrite Hq, Hs, Hf, Hmod. cbv zeta.
    destruct (belt_halves n jr h k Hh Hk) as [-> ->].
    rewrite (div_interval _ n c), (div_interval _ n (c + 1)) by lia.
    destruct (Z.eqb_spec c (c + 1)); [lia | ].
    destruct (Z.ltb_spec c (c + 1)); [ | lia].
    rewrite Ha, Hb.
    destruct (Z.leb_spec (2 * n) (2 * ((c + 1) * n - y - h) - (2 * c + 1) * n - k - 1)); [lia | ].
    apply decode_xy; lia.
Qed.

(** The same for the four equatorial tiles, which lie in the belt; tile 4
    wraps around longitude zero. *)
Lemma ringpos_xyf_equator n c x y : 0 < n -> 0 <= c < 4 -> 0 <= x < n -> 0 <= y < n ->
  ringpos_valid n (xyf_to_ringpos n {| face := 4 + c; ix := x; iy := y |}) /\
  ringpos_to_xyf n (xyf_to_ringpos n {| face := 4 + c; ix := x; iy := y |}) =
  {| face := 4 + c; ix := x; iy := y |}.
Proof.
  intros Hn Hc Hx Hy. destruct (tiles c Hc) as (_ & _ & Ha & Hb & _).
  unfold xyf_to_ringpos. cbn [face ix iy]. rewrite Ha, Hb.
  remember (3 * n - x - y - 1) as jr eqn:Hjr.
  destruct (zone_cases n jr) as [Hz Hq Hs Hf | Hz Hq Hs Hf | Hz Hq Hs Hf]; [lia | | lia].
  rewrite Hq, Hs.
  destruct (parity (jr - n)) as (h & k & Hh & Hk & Hmod & _). rewrite Hmod.
  rewrite (half_exact _ ((c + 1) * n - y - h)) by lia.
  assert (Hcn : 0 <= c * n <= 3 * n) by nia.
  assert (Hc0 : c = 0 \/ n <= c * n) by nia.
  pose proof (lor_4 c Hc) as Hlor.
  destruct (belt_halves n jr h k Hh Hk) as [Hire Hirm].
  destruct (Z.ltb_spec ((c + 1) * n - y - h) 1) as [Hw | Hw].
  - assert (c = 0) by lia. subst c.
    split; [unfold ringpos_valid; cbn [fst snd]; rewrite Hq; lia | ].
    unfold ringpos_to_xyf. rewrite Hq, Hs, Hf, Hmod. cbv zeta.
    rewrite Hire, Hirm.
    rewrite !(div_interval _ n 4) by lia.
    change (4 =? 4) with true. cbv iota. change (Z.lor 4 4) with (4 + 0).
    rewrite Ha, Hb.
    destruct (Z.leb_spec (2 * n) (2 * ((0 + 1) * n - y - h + 4 * n) - 2 * 0 * n - k - 1)); [ | lia].
    apply decode_xy; lia.
  - split; [unfold ringpos_valid; cbn [fst snd]; rewrite Hq; lia | ].
    unfold ringpos_to_xyf. rewrite Hq, Hs, Hf, Hmod. cbv zeta.
    rewrite Hire, Hirm.
    rewrite !(div_interval _ n c) by lia.
    rewrite Z.eqb_refl, Hlor. replace (c + 4) with (4 + c) by lia.
    rewrite Ha, Hb.
    destruct (Z.leb_spec (2 * n) (2 * ((c + 1) * n - y - h) - 2 * c * n - k - 1)); [lia | ].
    apply decode_xy; lia.
Qed.

(** The same for the four tiles around the south pole. *)
Lemma ringpos_xyf_south n c x y : 0 < n -> 0 <= c < 4 -> 0 <= x < n -> 0 <= y < n ->
  ringpos_valid n (xyf_to_ringpos n {| face := 8 + c; ix := x; iy := y |}) /\
  ringpos_to_xyf n (xyf_to_ringpos n {| face := 8 + c; ix := x; iy := y |}) =
  {| face := 8 + c; ix := x; iy := y |}.
Proof.
  intros Hn Hc Hx Hy. destruct (tiles c Hc) as (_ & _ & _ & _ & Ha & Hb).
  unfold xyf_to_ringpos. cbn [face ix iy]. rewrite Ha, Hb.
  remember (4 * n - x - y - 1) as jr eqn:Hjr.
  destruct (zone_cases n jr) as [Hz Hq Hs Hf | Hz Hq Hs Hf | Hz Hq Hs Hf]; [lia | | ].
  - rewrite Hq, Hs.
    destruct (parity (jr - n)) as (h & k & Hh & Hk & Hmod & _). rewrite Hmod.
    rewrite (half_exact _ ((c + 2) * n - y - h)) by lia.
    assert (Hcn : 0 <= c * n <= 3 * n) by nia.
    destruct (Z.ltb_spec ((c + 2) * n - y - h) 1); [lia | ].
    split; [unfold ringpos_valid; cbn [fst snd]; rewrite Hq; lia | ].
    unfold ringpos_to_xyf. rewrite Hq, Hs, Hf, Hmod. cbv zeta.
    destruct (belt_halves n jr h k Hh Hk) as [-> ->].
    rewrite (div_interval _ n (c + 1)), (div_interval _ n c) by lia.
    destruct (Z.eqb_spec (c + 1) c); [lia | ].
    destruct (Z.ltb_spec (c + 1) c); [lia | ].
    replace (c + 8) with (8 + c) by lia. rewrite Ha, Hb.
    destruct (Z.leb_spec (2 * n) (2 * ((c + 2) * n - y - h) - (2 * c + 1) * n - k - 1)); [lia | ].
    apply decode_xy; lia.
  - rewrite Hq, Hs.
    set (nr := 4 * n - jr) in *.
    assert (Hnr : nr = 4 * n - jr) by reflexivity. clearbody nr.
    rewrite (half_exact _ (c * nr + x + 1)) by lia.
    assert (Hcj : 0 <= c * nr <= 3 * nr) by nia.
    destruct (Z.ltb_spec (c * nr + x + 1) 1); [lia | ].
    split; [unfold ringpos_valid; cbn [fst snd]; rewrite Hq; lia | ].
    unfold ringpos_to_xyf. rewrite Hq, Hs, Hf.
    rewrite (div_interval _ nr c) by lia. rewrite Ha, Hb.
    destruct (Z.leb_spec (2 * n) (2 * (c * nr + x + 1) - (2 * c + 1) * nr - 0 - 1)); [lia | ].
    apply decode_xy; lia.
Qed.

Lemma ringpos_xyf n t : 0 < n -> xyf_valid n t = true ->
  ringpos_valid n (xyf_to_ringpos n t) /\ ringpos_to_xyf n (xyf_to_ringpos n t) = t.
Proof.
  intros Hn Hv. apply xyf_valid_spec in Hv. destruct t as [f x y].
  cbn [face ix iy] in Hv. destruct Hv as (Hf & Hx & Hy).
  destruct (Z.lt_ge_cases f 4); [apply ringpos_xyf_north; lia | ].
  destruct (Z.lt_ge_cases f 8).
  - replace f with (4 + (f - 4)) by lia. apply ringpos_xyf_equator; lia.
  - replace f with (8 + (f - 8)) by lia. apply ringpos_xyf_south; lia.
Qed.

Lemma div_bounds a d K : 0 < d -> 0 <= a < K * d ->
  0 <= a / d < K /\ (a / d) * d <= a < (a / d) * d + d.
Proof.
  intros Hd Ha.
  pose proof (Z.div_mod a d ltac:(lia)) as Hdm.
  pose proof (Z.mod_pos_bound a d Hd) as Hm.
  split; [ | lia].
  split; [apply Z.div_pos; lia | apply Z.div_lt_upper_bound; lia].
Qed.

Lemma near_quotients n d r : 0 < n -> - n < r < n -> - n <= n * d + r <= n -> -1 <= d <= 1.
Proof. intros Hn Hr Hd. nia. Qed.

(** Every position of every ring is the position of a pixel of some
    tile. *)
Lemma xyf_exists n rp : 0 < n -> ringpos_valid n rp ->
  exists t, xyf_valid n t = true /\ xyf_to_ringpos n t = rp.
Proof.
  intros Hn [Hjr Hjp]. destruct rp as [jr jp]. cbn [fst snd] in *.
  destruct (zone_cases n jr) as [Hz Hq Hs _ | Hz Hq Hs _ | Hz Hq Hs _]; rewrite Hq in Hjp.
  - (* north cap *)
    destruct (div_bounds (jp - 1) jr 4 ltac:(lia) ltac:(lia)) as [Hc Hcj].
    set (c := (jp - 1) / jr) in *. clearbody c.
    destruct (tiles c Hc) as (Ha & Hb & _).
    exists {| face := c; ix := jp - (c + 1) * jr - 1 + n; iy := c * jr - jp + n |}.
    split; [apply xyf_valid_spec; cbn [face ix iy]; lia | ].
    unfold xyf_to_ringpos. cbn [face ix iy]. rewrite Ha, Hb.
    replace (2 * n - (jp - (c + 1) * jr - 1 + n) - (c * jr - jp + n) - 1) with jr by lia.
    rewrite Hq, Hs. rewrite (half_exact _ jp) by lia.
    destruct (Z.ltb_spec jp 1); [lia | reflexivity].
  - (* belt *)
    destruct (parity (jr - n)) as (h & k & Hh & Hk & Hmod & _).
    destruct (div_bounds (jp + h - 1) n 5 Hn ltac:(lia)) as [Hqp Hu].
    destruct (div_bounds (jp - h - k + n - 1) n 5 Hn ltac:(lia)) as [Hqm Hv].
    set (qp := (jp + h - 1) / n) in *. set (qm := (jp - h - k + n - 1) / n) in *.
    clearbody qp qm.
    set (ru := jp + h - 1 - qp * n) in *. set (rv := jp - h - k + n - 1 - qm * n) in *.
    assert (Hru : jp + h - 1 = qp * n + ru) by (subst ru; lia).
    assert (Hrv : jp - h - k + n - 1 = qm * n + rv) by (subst rv; lia).
    assert (Hru' : 0 <= ru < n) by lia. assert (Hrv' : 0 <= rv < n) by lia.
    clearbody ru rv.
    assert (Hd : -1 <= qp - qm <= 1).
    { apply (near_quotients n (qp - qm) (ru - rv)); [lia | lia | nia]. }
    assert (Hcase : qm = qp + 1 \/ (qm = qp /\ qp < 4) \/ (qm = qp /\ qp = 4) \/ qp = qm + 1) by lia.
    destruct Hcase as [-> | [[-> Hlt] | [[-> ->] | ->]]].
    + (* a north tile *)
      destruct (tiles qp ltac:(lia)) as (Ha & Hb & _).
      exists {| face := qp; ix := rv; iy := n - 1 - ru |}.
      split; [apply xyf_valid_spec; cbn [face ix iy]; lia | ].
      unfold xyf_to_ringpos. cbn [face ix iy]. rewrite Ha, Hb.
      replace (2 * n - rv - (n - 1 - ru) - 1) with jr by lia.
      rewrite Hq, Hs, Hmod. rewrite (half_exact _ jp) by lia.
      destruct (Z.ltb_spec jp 1); [lia | reflexivity].
    + (* an equatorial tile *)
      destruct (tiles qp ltac:(lia)) as (_ & _ & Ha & Hb & _).
      exists {| face := 4 + qp; ix := rv; iy := n - 1 - ru |}.
      split; [apply xyf_valid_spec; cbn [face ix iy]; lia | ].
      unfold xyf_to_ringpos. cbn [face ix iy]. rewrite Ha, Hb.
      replace (3 * n - rv - (n - 1 - ru) - 1) with jr by lia.
      rewrite Hq, Hs, Hmod. rewrite (half_exact _ jp) by lia.
      destruct (Z.ltb_spec jp 1); [lia | reflexivity].
    + (* tile 4, across longitude zero *)
      destruct (tiles 0 ltac:(lia)) as (_ & _ & Ha & Hb & _).
      exists {| face := 4 + 0; ix := rv; iy := n - 1 - ru |}.
      split; [apply xyf_valid_spec; cbn [face ix iy]; lia | ].
      unfold xyf_to_ringpos. cbn [face ix iy]. rewrite Ha, Hb.
      replace (3 * n - rv - (n - 1 - ru) - 1) with jr by lia.
      rewrite Hq, Hs, Hmod. rewrite (half_exact _ (jp - 4 * n)) by lia.
      destruct (Z.ltb_spec (jp - 4 * n) 1); [f_equal; lia | lia].
    + (* a south tile *)
      destruct (tiles qm ltac:(lia)) as (_ & _ & _ & _ & Ha & Hb).
      exists {| face := 8 + qm; ix := rv; iy := n - 1 - ru |}.
      split; [apply xyf_valid_spec; cbn [face ix iy]; lia | ].
      unfold xyf_to_ringpos. cbn [face ix iy]. rewrite Ha, Hb.
      replace (4 * n - rv - (n - 1 - ru) - 1) with jr by lia.
      rewrite Hq, Hs, Hmod. rewrite (half_exact _ jp) by lia.
      destruct (Z.ltb_spec jp 1); [lia | reflexivity].
  - (* south cap *)
    set (nr := 4 * n - jr) in *.
    assert (Hnr : nr = 4 * n - jr) by reflexivity. clearbody nr.
    destruct (div_bounds (jp - 1) nr 4 ltac:(lia) ltac:(lia)) as [Hc Hcj].
    set (c := (jp - 1) / nr) in *. clearbody c.
    destruct (tiles c Hc) as (_ & _ & _ & _ & Ha & Hb).
    exists {| face := 8 + c; ix := jp - 1 - c * nr; iy := nr - 1 - (jp - 1 - c * nr) |}.
    split; [apply xyf_valid_spec; cbn [face ix iy]; lia | ].
    unfold xyf_to_ringpos. cbn [face ix iy]. rewrite Ha, Hb.
    replace (4 * n - (jp - 1 - c * nr) - (nr - 1 - (jp - 1 - c * nr)) - 1) with jr by lia.
    rewrite Hq, Hs. rewrite (half_exact _ jp) by lia.
    destruct (Z.ltb_spec jp 1); [lia | reflexivity].
Qed.

Lemma xyf_ringpos n rp : 0 < n -> ringpos_valid n rp ->
  xyf_valid n (ringpos_to_xyf n rp) = true /\ xyf_to_ringpos n (ringpos_to_xyf n rp) = rp.
Proof.
  intros Hn Hrp. destruct (xyf_exists n rp Hn Hrp) as (t & Ht & <-).
  destruct (ringpos_xyf n t Hn Ht) as [_ ->]. auto.
Qed.

(** *** Interleaved bits *)

(** Bits that do not overlap add up. *)
Lemma lor_low b a n : 0 <= n -> 0 <= b < 2 ^ n -> Z.lor b (Z.shiftl a n) = b + a * 2 ^ n.
Proof.
  intros Hn Hb.
  assert (Hland : Z.land b (Z.shiftl a n) = 0).
  { apply Z.bits_inj'. intros i Hi. rewrite Z.land_spec, Z.bits_0.
    destruct (Z.lt_ge_cases i n) as [Hlt | Hge].
    - rewrite Z.shiftl_spec_low by assumption. apply andb_false_r.
    - rewrite <- (Z.mod_small b (2 ^ n)) by assumption.
      rewrite Z.mod_pow2_bits_high by lia. reflexivity. }
  rewrite <- Z.lxor_lor by assumption.
  rewrite <- Z.add_nocarry_lxor by assumption.
  rewrite Z.shiftl_mul_pow2 by assumption. reflexivity.
Qed.

Lemma low_bit x : Z.land x 1 = x mod 2.
Proof. change 1 with (Z.ones 1). rewrite Z.land_ones by lia. reflexivity. Qed.

Lemma spread_bits_S k x y :
  spread_bits (S k) x y = x mod 2 + 2 * (y mod 2) + 4 * spread_bits k (x / 2) (y / 2).
Proof.
  cbn [spread_bits]. rewrite !low_bit, !Z.shiftr_div_pow2 by lia.
  change (2 ^ 1) with 2.
  pose proof (Z.mod_pos_bound x 2 ltac:(lia)). pose proof (Z.mod_pos_bound y 2 ltac:(lia)).
  rewrite (lor_low (x mod 2) (y mod 2) 1) by (change (2 ^ 1) with 2; lia).
  rewrite lor_low by (change (2 ^ 1) with 2; change (2 ^ 2) with 4; lia).
  change (2 ^ 1) with 2. change (2 ^ 2) with 4. lia.
Qed.

Lemma compress_bits_S k p :
  compress_bits (S k) p =
  (p mod 2 + 2 * fst (compress_bits k (p / 4)),
   (p / 2) mod 2 + 2 * snd (compress_bits k (p / 4))).
Proof.
  cbn [compress_bits]. rewrite !low_bit, !Z.shiftr_div_pow2 by lia.
  change (2 ^ 1) with 2. change (2 ^ 2) with 4.
  destruct (compress_bits k (p / 4)) as [x y]. cbn [fst snd].
  pose proof (Z.mod_pos_bound p 2 ltac:(lia)).
  pose proof (Z.mod_pos_bound (p / 2) 2 ltac:(lia)).
  rewrite !lor_low by (change (2 ^ 1) with 2; lia).
  change (2 ^ 1) with 2. f_equal; lia.
Qed.

(** De-interleaving undoes interleaving, on fields of [k] bits. *)
Lemma compress_spread k : forall x y,
  0 <= x < 2 ^ Z.of_nat k -> 0 <= y < 2 ^ Z.of_nat k ->
  0 <= spread_bits k x y < 4 ^ Z.of_nat k /\ compress_bits k (spread_bits k x y) = (x, y).
Proof.
  induction k as [ | k IH]; intros x y Hx Hy.
  - cbn in *. split; [lia | f_equal; lia].
  - rewrite Nat2Z.inj_succ, Z.pow_succ_r in * by lia.
    destruct (IH (x / 2) (y / 2)) as [Hr Hc]; [Z.div_mod_to_equations; lia .. | ].
    rewrite spread_bits_S, compress_bits_S.
    set (r := spread_bits k (x / 2) (y / 2)) in *. clearbody r.
    replace ((x mod 2 + 2 * (y mod 2) + 4 * r) / 4) with r by (Z.div_mod_to_equations; lia).
    rewrite Hc. cbn [fst snd].
    split; [Z.div_mod_to_equations; lia | f_equal; Z.div_mod_to_equations; lia].
Qed.

(** Interleaving undoes de-interleaving, below [4^k]. *)
Lemma spread_compress k : forall p, 0 <= p < 4 ^ Z.of_nat k ->
  0 <= fst (compress_bits k p) < 2 ^ Z.of_nat k /\
  0 <= snd (compress_bits k p) < 2 ^ Z.of_nat k /\
  spread_bits k (fst (compress_bits k p)) (snd (compress_bits k p)) = p.
Proof.
  induction k as [ | k IH]; intros p Hp.
  - cbn in *. lia.
  - rewrite Nat2Z.inj_succ, Z.pow_succ_r in * by lia.
    destruct (IH (p / 4)) as (Hx & Hy & Hs); [Z.div_mod_to_equations; lia | ].
    rewrite compress_bits_S. cbn [fst snd]. rewrite spread_bits_S.
    set (x := fst (compress_bits k (p / 4))) in *.
    set (y := snd (compress_bits k (p / 4))) in *. clearbody x y.
    replace ((p mod 2 + 2 * x) / 2) with x by (Z.div_mod_to_equations; lia).
    replace (((p / 2) mod 2 + 2 * y) / 2) with y by (Z.div_mod_to_equations; lia).
    rewrite Hs.
    split; [Z.div_mod_to_equations; lia | ].
    split; Z.div_mod_to_equations; lia.
Qed.

(** *** The nested numbering *)

Lemma power_of_two_spec n : is_power_of_two n = true ->
  0 < n /\ n = 2 ^ Z.of_nat (Z.to_nat (Z.log2 n)) /\
  n * n = 4 ^ Z.of_nat (Z.to_nat (Z.log2 n)).
Proof.
  unfold is_power_of_two. rewrite andb_true_iff, Z.ltb_lt, Z.eqb_eq. intros [Hn Hp].
  pose proof (Z.log2_nonneg n) as Hl. rewrite Z2Nat.id by assumption.
  split; [assumption | split; [assumption | ]].
  change 4 with (2 * 2). rewrite Z.pow_mul_l, <- Hp. reflexivity.
Qed.

Lemma nested_xyf n p : is_power_of_two n = true -> 0 <= p < 12 * (n * n) ->
  xyf_valid n (nested_to_xyf n p) = true /\ xyf_to_nested n (nested_to_xyf n p) = p.
Proof.
  intros Hpow Hp. destruct (power_of_two_spec n Hpow) as (Hn & Hk & Hkk).
  set (k := Z.to_nat (Z.log2 n)) in *.
  assert (Hnn : 0 < n * n) by nia.
  pose proof (Z.div_mod p (n * n) ltac:(lia)) as Hdm.
  pose proof (Z.mod_pos_bound p (n * n) Hnn) as Hmod.
  assert (Hf : 0 <= p / (n * n) < 12).
  { split; [apply Z.div_pos; lia | apply Z.div_lt_upper_bound; lia]. }
  destruct (spread_compress k (p mod (n * n))) as (Hx & Hy & Hs); [lia | ].
  unfold nested_to_xyf, xyf_to_nested. fold k.
  destruct (compress_bits k (p mod (n * n))) as [x y]. cbn [fst snd face ix iy] in *.
  split; [apply xyf_valid_spec; cbn [face ix iy]; lia | ].
  rewrite Hs. lia.
Qed.

Lemma xyf_nested n t : is_power_of_two n = true -> xyf_valid n t = true ->
  0 <= xyf_to_nested n t < 12 * (n * n) /\ nested_to_xyf n (xyf_to_nested n t) = t.
Proof.
  intros Hpow Ht. destruct (power_of_two_spec n Hpow) as (Hn & Hk & Hkk).
  apply xyf_valid_spec in Ht. destruct t as [f x y]. cbn [face ix iy] in Ht.
  set (k := Z.to_nat (Z.log2 n)) in *.
  destruct (compress_spread k x y) as [Hs Hc]; [lia | lia | ].
  unfold xyf_to_nested, nested_to_xyf. cbn [face ix iy]. fold k.
  set (r := spread_bits k x y) in *. clearbody r.
  split; [nia | ].
  rewrite (mod_interval _ (n * n) f), (div_interval _ (n * n) f) by lia.
  replace (f * (n * n) + r - f * (n * n)) with r by lia.
  rewrite Hc. reflexivity.
Qed.

(** *** The two conversions *)

(** One index, there and back. *)
Lemma nested_ring_nested n p : is_power_of_two n = true -> 0 <= p < 12 * (n * n) ->
  0 <= nested_to_ring n p < 12 * (n * n) /\
  ring_to_nested n (nested_to_ring n p) = p.
Proof.
  intros Hpow Hp. destruct (power_of_two_spec n Hpow) as (Hn & _).
  destruct (nested_xyf n p Hpow Hp) as [Hv Hback].
  destruct (ringpos_xyf n _ Hn Hv) as [Hrp Hxyf].
  destruct (ring_locate_index n _ Hn Hrp) as [Hrange Hloc].
  unfold nested_to_ring, ring_to_nested, xyf_to_ring, ring_to_xyf.
  split; [lia | ]. rewrite Hloc, Hxyf. exact Hback.
Qed.

Lemma ring_nested_ring n p : is_power_of_two n = true -> 0 <= p < 12 * (n * n) ->
  0 <= ring_to_nested n p < 12 * (n * n) /\
  nested_to_ring n (ring_to_nested n p) = p.
Proof.
  intros Hpow Hp. destruct (power_of_two_spec n Hpow) as (Hn & _).
  destruct (ring_index_locate n p Hn ltac:(lia)) as [Hrp Hback].
  destruct (xyf_ringpos n _ Hn Hrp) as [Hv Hrpos].
  destruct (xyf_nested n _ Hpow Hv) as [Hrange Hxyf].
  unfold nested_to_ring, ring_to_nested, xyf_to_ring, ring_to_xyf.
  split; [lia | ]. rewrite Hxyf, Hrpos. exact Hback.
Qed.

End pixel_facts.

(** ** Converting between the orderings *)

Section Orderings.
Context `{Numerics} `{!Kernel} {S : Type} `{!HEALPixLike S}.
Existing Instance spec_core.spec.

Lemma index_in_range_spec npix p :
  spec_core.index_in_range npix p = true <-> 0 <= p < npix.
Proof. unfold spec_core.index_in_range. rewrite andb_true_iff, Z.leb_le, Z.ltb_lt. tauto. Qed.

Lemma convert_indices_valid f index n :
  pixel.is_power_of_two n = true ->
  Forall (fun p => 0 <= p < 12 * n ^ 2) index ->
  spec_core.convert_indices f index n = Ok (map (f n) index).
Proof.
  intros Hpow Hall. unfold spec_core.convert_indices. rewrite Hpow. cbn [negb].
  replace (forallb (spec_core.index_in_range (12 * n ^ 2)) index) with true; [reflexivity | ].
  symmetry. apply forallb_forall. intros p Hp. apply index_in_range_spec.
  rewrite List.Forall_forall in Hall. exact (Hall p Hp).
Qed.

Lemma converted_round_trip f g n index :
  (forall p, 0 <= p < 12 * n ^ 2 -> 0 <= f n p < 12 * n ^ 2 /\ g n (f n p) = p) ->
  Forall (fun p => 0 <= p < 12 * n ^ 2) index ->
  Forall (fun p => 0 <= p < 12 * n ^ 2) (map (f n) index) /\
  map (g n) (map (f n) index) = index.
Proof.
  intros Hfg Hall. induction Hall as [ | p index Hp Hall [IHr IHm]]; cbn [map].
  - split; [constructor | reflexivity].
  - destruct (Hfg p Hp) as [Hr Hb]. split; [constructor; assumption | ].
    rewrite Hb, IHm. reflexivity.
Qed.

(** C2.  For an [nside] that is a power of two and indices in
    [[0, 12 * nside^2)], [nested_to_ring] followed by [ring_to_nested]
    returns the indices it was given, and so does [ring_to_nested] followed
    by [nested_to_ring]. *)
Theorem orderings_are_mutual_inverses (index : list Z) (w : world S) :
  pixel.is_power_of_two (nside (healpix_of (w_self w))) = true ->
  Forall (fun i => 0 <= i < 12 * nside (healpix_of (w_self w)) ^ 2) index ->
  bind (HEALPix.nested_to_ring index) HEALPix.ring_to_nested w = (Ok index, w) /\
  bind (HEALPix.ring_to_nested index) HEALPix.nested_to_ring w = (Ok index, w).
Proof.
  intros Hpow Hall. set (n := nside (healpix_of (w_self w))) in *.
  assert (Hnr : forall p, 0 <= p < 12 * n ^ 2 ->
            0 <= pixel.nested_to_ring n p < 12 * n ^ 2 /\
            pixel.ring_to_nested n (pixel.nested_to_ring n p) = p).
  { intros p Hp. rewrite Z.pow_2_r in *. apply pixel_facts.nested_ring_nested; assumption. }
  assert (Hrn : forall p, 0 <= p < 12 * n ^ 2 ->
            0 <= pixel.ring_to_nested n p < 12 * n ^ 2 /\
            pixel.nested_to_ring n (pixel.ring_to_nested n p) = p).
  { intros p Hp. rewrite Z.pow_2_r in *. apply pixel_facts.ring_nested_ring; assumption. }
  destruct (converted_round_trip _ _ n index Hnr Hall) as [Hall1 Hmap1].
  destruct (converted_round_trip _ _ n index Hrn Hall) as [Hall2 Hmap2].
  unfold bind. rewrite (nested_to_ring_eq index w), (ring_to_nested_eq index w).
  cbn [core.nested_to_ring core.ring_to_nested spec_core.spec].
  unfold spec_core.nested_to_ring, spec_core.ring_to_nested. fold n.
  rewrite !(convert_indices_valid _ index n Hpow Hall).
  rewrite nested_to_ring_eq, ring_to_nested_eq.
  cbn [core.nested_to_ring core.ring_to_nested spec_core.spec].
  unfold spec_core.nested_to_ring, spec_core.ring_to_nested. fold n.
  rewrite (convert_indices_valid _ _ n Hpow Hall1), (convert_indices_valid _ _ n Hpow Hall2).
  rewrite Hmap1, Hmap2. split; reflexivity.
Qed.

End Orderings.

Section OrderingsOnSample.
Existing Instance sample.numerics.
Existing Instance sample.kernel.
Existing Instance sample.the_core.
Import sample.

(** At [nside = 2] the conversion gives the ring indices of the published
    HEALPix numbering. *)
Example nested_to_ring_at_nside_2 :
  map (pixel.nested_to_ring 2) [0; 1; 2; 3; 4; 16; 18; 32; 47] =
  [13; 5; 4; 0; 15; 28; 27; 44; 35].
Proof. vm_compute. reflexivity. Qed.

Lemma orderings_are_mutual_inverses_at_nside_2 :
  bind (HEALPix.nested_to_ring [0; 1; 18; 47]) HEALPix.ring_to_nested (plain 2) =
  (Ok [0; 1; 18; 47], plain 2) /\
  bind (HEALPix.ring_to_nested [0; 1; 18; 47]) HEALPix.nested_to_ring (plain 2) =
  (Ok [0; 1; 18; 47], plain 2).
Proof.
  apply (orderings_are_mutual_inverses [0; 1; 18; 47] (plain 2)).
  - reflexivity.
  - repeat constructor; cbn; lia.
Defined.

End OrderingsOnSample.

(** * Further properties of the two classes *)

(** ** Construction *)

Section Construction.
Context `{Numerics} `{!Astropy}.

(** X1.  [CelestialHEALPix(nside, order, frame)] fails exactly when
    [HEALPix(nside, order)] fails, which is when [nside] is missing, and
    with the same error.  Otherwise its [nside] and [order] are those of
    the [HEALPix] built from the same arguments, with the same default
    ordering, and its frame is the one given, [ICRS] when none is. *)
Theorem celestial_constructor_extends_base
  (n : option Z) (o : option Order) (f : option Frame) :
  CelestialHEALPix.__init__ n o f =
  result_bind (HEALPix.__init__ n o)
    (fun b => Ok {| base := b; frame := default ICRS f |}) /\
  (HEALPix.__init__ n o = Raise NsideNotSet <-> n = None) /\
  (CelestialHEALPix.__init__ n o f = Raise NsideNotSet <-> n = None) /\
  (forall c, CelestialHEALPix.__init__ n o None = Ok c -> frame c = ICRS) /\
  (forall c g, CelestialHEALPix.__init__ n o (Some g) = Ok c -> frame c = g).
Proof.
  destruct n as [v | ], o as [o | ]; cbn.
  all: repeat split; try discriminate; try reflexivity.
  all: try (intros c Hc; injection Hc as <-; reflexivity).
  all: try (intros c g Hc; injection Hc as <-; reflexivity).
Qed.

End Construction.

(** ** What a method reads of its object *)

Section Reads.
Context `{Numerics} `{!core.Core} {S1 S2 : Type} `{!HEALPixLike S1} `{!HEALPixLike S2}.

(** X2.  The pixel area, the pixel resolution, the pixel count and the two
    conversions between orderings read nothing of the object but [nside]:
    on two objects with the same [nside], whatever their ordering, their
    class and the arrays around them, each gives the same result. *)
Theorem geometry_depends_on_nside_only (w1 : world S1) (w2 : world S2) :
  nside (healpix_of (w_self w1)) = nside (healpix_of (w_self w2)) ->
  fst (HEALPix.pixel_area w1) = fst (HEALPix.pixel_area w2) /\
  fst (HEALPix.pixel_resolution w1) = fst (HEALPix.pixel_resolution w2) /\
  fst (HEALPix.npix w1) = fst (HEALPix.npix w2) /\
  (forall i, fst (HEALPix.nested_to_ring i w1) = fst (HEALPix.nested_to_ring i w2)) /\
  (forall i, fst (HEALPix.ring_to_nested i w1) = fst (HEALPix.ring_to_nested i w2)).
Proof.
  intros Hn.
  unfold HEALPix.pixel_area, HEALPix.pixel_resolution, HEALPix.npix,
    HEALPix.nested_to_ring, HEALPix.ring_to_nested, HEALPix.self_nside,
    bind, getattr, call.
  cbn [fst]. rewrite Hn. repeat split.
Qed.

(** X3.  The coordinate conversions, the interpolation and the cone search
    read [nside] and [order] and nothing else of the object: on two objects
    that agree on both, of whichever class and frame, each gives the same
    result (the interpolation, where the reference holds the same array). *)
Theorem conversions_depend_on_nside_and_order (w1 : world S1) (w2 : world S2) :
  healpix_of (w_self w1) = healpix_of (w_self w2) ->
  (forall i dx dy,
      fst (HEALPix.healpix_to_lonlat i dx dy w1) =
      fst (HEALPix.healpix_to_lonlat i dx dy w2)) /\
  (forall lon lat r,
      fst (HEALPix.lonlat_to_healpix lon lat r w1) =
      fst (HEALPix.lonlat_to_healpix lon lat r w2)) /\
  (forall lon lat values,
      w_arrays w1 !! values = w_arrays w2 !! values ->
      fst (HEALPix.interpolate_bilinear_lonlat lon lat values w1) =
      fst (HEALPix.interpolate_bilinear_lonlat lon lat values w2)) /\
  (forall lon lat radius a,
      fst (HEALPix.cone_search_lonlat lon lat radius a w1) =
      fst (HEALPix.cone_search_lonlat lon lat radius a w2)).
Proof.
  intros Hh. split; [ | split; [ | split]].
  - intros. unfold HEALPix.healpix_to_lonlat, HEALPix.self_nside, HEALPix.self_order,
      bind, getattr, call. cbn [fst]. rewrite Hh. reflexivity.
  - intros. unfold HEALPix.lonlat_to_healpix, HEALPix.self_nside, HEALPix.self_order,
      bind, getattr, call. cbn [fst]. rewrite Hh. reflexivity.
  - intros lon lat values Hv. rewrite !interpolate_bilinear_lonlat_eq.
    cbn [fst]. rewrite Hh, Hv. reflexivity.
  - intros. rewrite !cone_search_lonlat_eq. cbn [fst]. rewrite Hh. reflexivity.
Qed.

End Reads.

(** ** Order of the checks in the interpolation *)

Section Precedence.
Context `{Numerics} `{!core.Core} {S : Type} `{!HEALPixLike S}.

(** X4.  The comparison [len(values) != self.npix] reads the pixel count
    first: when the core has no pixel count for the object's [nside] and
    raises, [interpolate_bilinear_lonlat] raises that error, whatever the
    length of [values], and the store is untouched.  A length mismatch is
    not reported on such an object. *)
Theorem pixel_count_error_precedes_length_check lon lat values vs e (w : world S) :
  w_arrays w !! values = Some vs ->
  core.nside_to_npix (nside (healpix_of (w_self w))) = Raise e ->
  HEALPix.interpolate_bilinear_lonlat lon lat values w = (Raise e, w).
Proof.
  intros Hvs He. rewrite interpolate_bilinear_lonlat_eq, Hvs, He. reflexivity.
Qed.

Lemma healpix_to_lonlat_eq index dx dy (w : world S) :
  HEALPix.healpix_to_lonlat index dx dy w =
  (core.healpix_to_lonlat index (nside (healpix_of (w_self w))) dx dy
     (order (healpix_of (w_self w))), w).
Proof. reflexivity. Qed.

Lemma lonlat_to_healpix_eq lon lat r (w : world S) :
  HEALPix.lonlat_to_healpix lon lat r w =
  (core.lonlat_to_healpix lon lat (nside (healpix_of (w_self w))) (default false r)
     (order (healpix_of (w_self w))), w).
Proof. reflexivity. Qed.

(** X5.  Going from indices to coordinates and back on one object is the
    core's two conversions composed, at the object's [nside] and [order]
    and, by default, at the centre of the pixels: when the core's second
    conversion undoes the first there, the object returns the indices it
    was given. *)
Theorem lonlat_conversions_compose index lon lat r (w : world S) :
  core.healpix_to_lonlat index (nside (healpix_of (w_self w))) None None
    (order (healpix_of (w_self w))) = Ok (lon, lat) ->
  core.lonlat_to_healpix lon lat (nside (healpix_of (w_self w))) false
    (order (healpix_of (w_self w))) = Ok r ->
  bind (HEALPix.healpix_to_lonlat index None None)
    (fun ll => HEALPix.lonlat_to_healpix (fst ll) (snd ll) None) w = (Ok r, w).
Proof.
  intros Hto Hback.
  unfold bind. rewrite healpix_to_lonlat_eq, Hto, lonlat_to_healpix_eq.
  cbn [fst snd default from_option]. rewrite Hback. reflexivity.
Qed.

(** X6.  Converting indices to the other ordering and back on one object
    hands the same [nside] to the core both times: when the core's second
    conversion undoes the first at that [nside], the object returns the
    indices it was given; when the first conversion raises, so does the
    pair, with that error. *)
Theorem ordering_conversions_compose index (w : world S) :
  (forall r,
      core.nested_to_ring index (nside (healpix_of (w_self w))) = Ok r ->
      core.ring_to_nested r (nside (healpix_of (w_self w))) = Ok index ->
      bind (HEALPix.nested_to_ring index) HEALPix.ring_to_nested w = (Ok index, w)) /\
  (forall r,
      core.ring_to_nested index (nside (healpix_of (w_self w))) = Ok r ->
      core.nested_to_ring r (nside (healpix_of (w_self w))) = Ok index ->
      bind (HEALPix.ring_to_nested index) HEALPix.nested_to_ring w = (Ok index, w)) /\
  (forall e,
      core.nested_to_ring index (nside (healpix_of (w_self w))) = Raise e ->
      bind (HEALPix.nested_to_ring index) HEALPix.ring_to_nested w = (Raise e, w)).
Proof.
  split; [ | split].
  - intros r Hto Hback. unfold bind.
    rewrite nested_to_ring_eq, Hto, ring_to_nested_eq, Hback. reflexivity.
  - intros r Hto Hback. unfold bind.
    rewrite ring_to_nested_eq, Hto, nested_to_ring_eq, Hback. reflexivity.
  - intros e He. unfold bind. rewrite nested_to_ring_eq, He. reflexivity.
Qed.

End Precedence.

(** ** The celestial methods over the plain ones *)

Section Celestial.
Context `{Numerics} `{!core.Core} `{!Astropy}.

(** X7.  [interpolate_bilinear_skycoord] makes the check of
    [interpolate_bilinear_lonlat]: with the pixel count [p] of the object's
    [nside], a [values] array of another length raises
    [ValueLengthMismatch] whatever the coordinate, and with an array of
    length [p] the result is the core's interpolation at the longitude and
    latitude of the coordinate in the object's frame. *)
Theorem interpolate_skycoord_checks_length sc values vs p (w : world CelestialHEALPix) :
  w_arrays w !! values = Some vs ->
  core.nside_to_npix (nside (base (w_self w))) = Ok p ->
  (Z.of_nat (length vs) <> p ->
   CelestialHEALPix.interpolate_bilinear_skycoord sc values w =
   (Raise ValueLengthMismatch, w)) /\
  (Z.of_nat (length vs) = p ->
   CelestialHEALPix.interpolate_bilinear_skycoord sc values w =
   (core.interpolate_bilinear_lonlat
      (fst (represent_as_unit_spherical (transform_to sc (frame (w_self w)))))
      (snd (represent_as_unit_spherical (transform_to sc (frame (w_self w)))))
      vs (order (base (w_self w))), w)).
Proof.
  intros Hvs Hp.
  assert (Heq : forall lon lat,
             HEALPix.interpolate_bilinear_lonlat lon lat values w =
             (if Z.of_nat (length vs) =? p then
                core.interpolate_bilinear_lonlat lon lat vs (order (base (w_self w)))
              else Raise ValueLengthMismatch, w)).
  { intros lon lat. rewrite interpolate_bilinear_lonlat_eq, Hvs.
    change (healpix_of (w_self w)) with (base (w_self w)). rewrite Hp. reflexivity. }
  unfold CelestialHEALPix.interpolate_bilinear_skycoord, CelestialHEALPix.self_frame,
    bind, getattr.
  rewrite Heq.
  destruct (Z.eqb_spec (Z.of_nat (length vs)) p) as [Hlen | Hlen].
  - split; [intros Hne; contradiction | reflexivity].
  - split; [reflexivity | intros Hl; contradiction].
Qed.

(** X8.  [cone_search_skycoord] keeps the guard of [cone_search_lonlat]:
    when the radius is an array, or the coordinate holds more than one
    position, it raises [InvalidArgumentShape], whatever [approximate] is
    and whatever the core would compute, and the store is untouched. *)
Theorem cone_search_skycoord_rejects_arrays sc radius a (w : world CelestialHEALPix) :
  isscalar (fst (represent_as_unit_spherical (transform_to sc (frame (w_self w))))) &&
  isscalar (snd (represent_as_unit_spherical (transform_to sc (frame (w_self w))))) &&
  isscalar radius = false ->
  CelestialHEALPix.cone_search_skycoord sc radius a w = (Raise InvalidArgumentShape, w).
Proof.
  intros Hs. rewrite cone_search_skycoord_eq, cone_search_lonlat_eq, Hs. reflexivity.
Qed.

(** X9.  Where the frame gives back the longitude and latitude it was
    handed (a coordinate realized in the object's frame, transformed to
    that frame and represented on the unit sphere), going from indices to
    sky coordinates and back is going from indices to longitude and
    latitude and back: the celestial layer adds and loses nothing, on the
    returning and on the raising paths. *)
Theorem skycoord_round_trip_is_lonlat_round_trip index dx dy r
  (w : world CelestialHEALPix) :
  (forall lon lat,
      represent_as_unit_spherical
        (transform_to (realize_frame (frame (w_self w)) lon lat) (frame (w_self w))) =
      (lon, lat)) ->
  bind (CelestialHEALPix.healpix_to_skycoord index dx dy)
    (fun sc => CelestialHEALPix.skycoord_to_healpix sc r) w =
  bind (HEALPix.healpix_to_lonlat index dx dy)
    (fun ll => HEALPix.lonlat_to_healpix (fst ll) (snd ll) r) w.
Proof.
  intros Hframe.
  unfold CelestialHEALPix.healpix_to_skycoord, CelestialHEALPix.skycoord_to_healpix,
    CelestialHEALPix.self_frame.
  unfold bind, getattr, ret. rewrite healpix_to_lonlat_eq.
  destruct (core.healpix_to_lonlat index _ dx dy _) as [[lon lat] | e]; [ | reflexivity].
  cbn [fst snd]. rewrite Hframe, !lonlat_to_healpix_eq. cbn [fst snd].
  destruct r as [[ | ] | ]; reflexivity.
Qed.

End Celestial.

(** ** The further properties on the small instances *)

Section FurtherOnSample.
Existing Instance sample.numerics.
Existing Instance sample.kernel.
Existing Instance sample.astropy.
Existing Instance sample.the_core.
Import sample.

Lemma geometry_depends_on_nside_only_at_4 :
  fst (HEALPix.npix (plain 4)) = fst (HEALPix.npix (celestial 4)) /\
  fst (HEALPix.nested_to_ring [0; 1] (plain 4)) =
  fst (HEALPix.nested_to_ring [0; 1] (celestial 4)).
Proof.
  destruct (geometry_depends_on_nside_only (plain 4) (celestial 4))
    as (_ & _ & Hnpix & Hring & _); [reflexivity | ].
  split; [exact Hnpix | apply Hring].
Defined.

Lemma conversions_depend_on_nside_and_order_at_2 :
  fst (HEALPix.cone_search_lonlat (scalar 5) (scalar 0) (scalar 1) None (celestial 2)) =
  fst (HEALPix.cone_search_lonlat (scalar 5) (scalar 0) (scalar 1) None
         (World {| nside := 2; order := nested |} arrays)) /\
  fst (HEALPix.interpolate_bilinear_lonlat (scalar 5) (scalar 0) 2%positive
         (celestial 2)) =
  fst (HEALPix.interpolate_bilinear_lonlat (scalar 5) (scalar 0) 2%positive
         (World {| nside := 2; order := nested |} arrays)).
Proof.
  destruct (conversions_depend_on_nside_and_order
              (celestial 2) (World {| nside := 2; order := nested |} arrays))
    as (_ & _ & Hinterp & Hcone); [reflexivity | ].
  split; [apply Hcone | apply Hinterp; reflexivity].
Defined.

Lemma pixel_count_error_precedes_length_check_at_0 :
  HEALPix.interpolate_bilinear_lonlat (scalar 5) (scalar 0) 2%positive (plain 0) =
  (Raise InvalidResolution, plain 0).
Proof.
  exact (pixel_count_error_precedes_length_check
           (scalar 5) (scalar 0) 2%positive [7; 8; 9] InvalidResolution (plain 0)
           eq_refl eq_refl).
Defined.

Lemma ordering_conversions_compose_at_2 :
  bind (HEALPix.nested_to_ring [0; 1; 18; 47]) HEALPix.ring_to_nested (plain 2) =
  (Ok [0; 1; 18; 47], plain 2) /\
  bind (HEALPix.nested_to_ring [0; 48]) HEALPix.ring_to_nested (plain 2) =
  (Raise InvalidIndex, plain 2).
Proof.
  split.
  - apply (proj1 (ordering_conversions_compose [0; 1; 18; 47] (plain 2))
             [13; 5; 27; 35]); vm_compute; reflexivity.
  - apply (proj2 (proj2 (ordering_conversions_compose [0; 48] (plain 2))));
      vm_compute; reflexivity.
Defined.

Lemma interpolate_skycoord_checks_length_at_1 :
  CelestialHEALPix.interpolate_bilinear_skycoord (position 5 0) 2%positive (celestial 1) =
  (Raise ValueLengthMismatch, celestial 1) /\
  CelestialHEALPix.interpolate_bilinear_skycoord (position 5 0) 1%positive (celestial 1) =
  (Ok [0; 1; 2; 3; 4; 5; 6; 7; 8; 9; 10; 11], celestial 1).
Proof.
  split.
  - refine (proj1 (interpolate_skycoord_checks_length
                     (position 5 0) 2%positive [7; 8; 9] 12 (celestial 1) _ _) _);
      [reflexivity | reflexivity | intros Hlen; discriminate Hlen].
  - refine (proj2 (interpolate_skycoord_checks_length
                     (position 5 0) 1%positive [0; 1; 2; 3; 4; 5; 6; 7; 8; 9; 10; 11] 12
                     (celestial 1) _ _) _);
      reflexivity.
Defined.

Lemma cone_search_skycoord_rejects_arrays_at_2 :
  CelestialHEALPix.cone_search_skycoord (position 5 0) (array [1; 2])
    (Some (PyBool true)) (celestial 2) =
  (Raise InvalidArgumentShape, celestial 2).
Proof.
  exact (cone_search_skycoord_rejects_arrays
           (position 5 0) (array [1; 2]) (Some (PyBool true)) (celestial 2) eq_refl).
Defined.

End FurtherOnSample.

Section FurtherOnMirror.
Existing Instance sample.numerics.
Existing Instance mirror.kernel.
Existing Instance mirror.astropy.
Existing Instance mirror.the_core.

Lemma lonlat_conversions_compose_at_2 :
  bind (HEALPix.healpix_to_lonlat [3; 4] None None)
    (fun ll => HEALPix.lonlat_to_healpix (fst ll) (snd ll) None) (mirror.celestial 2) =
  (Ok ([3; 4], None), mirror.celestial 2).
Proof.
  refine (lonlat_conversions_compose [3; 4] (sample.array [3; 4]) (sample.array [3; 4])
            ([3; 4], None) (mirror.celestial 2) _ _); reflexivity.
Defined.

Lemma skycoord_round_trip_is_lonlat_round_trip_at_2 :
  bind (CelestialHEALPix.healpix_to_skycoord [3; 4] None None)
    (fun sc => CelestialHEALPix.skycoord_to_healpix sc None) (mirror.celestial 2) =
  bind (HEALPix.healpix_to_lonlat [3; 4] None None)
    (fun ll => HEALPix.lonlat_to_healpix (fst ll) (snd ll) None) (mirror.celestial 2).
Proof.
  apply (skycoord_round_trip_is_lonlat_round_trip [3; 4] None None None
           (mirror.celestial 2)).
  intros lon lat. reflexivity.
Defined.

End FurtherOnMirror.
